(** * freenas.cli.commands: builtin and pipe commands

  A shallow embedding of the parts of [freenas/cli/commands.py] that build
  server-side query filters ([map_opargs], the [serialize_filter] methods),
  post-process tabular results ([find], [select]) and write session state
  ([top], [alias], [source]), with the properties the design document
  states about them; then of [unalias], [echo], [cd], [history] and the
  stages that set query parameters, and of the target setters, the iSCSI
  portals and the iSCSI users of [freenas/cli/plugins/shares.py], with
  properties read off the code. *)

From Stdlib Require Import String Ascii List Bool ZArith Lia Permutation.
From Stdlib Require Decimal DecimalString DecimalNat DecimalN DecimalZ.
Import ListNotations.
Set Warnings "-register-all".
Local Open Scope string_scope.
Local Open Scope list_scope.

(** ** Python values, exceptions and results *)

Module Py.

(** The values the parser hands to a command and the values found in the
    rows of a table. *)
Inductive pyval : Type :=
| VNone
| VStr (s : string)
| VInt (z : Z)
| VBool (b : bool)
| VList (items : list pyval).

(** The exceptions the modelled code raises or catches; [PyError] stands
    for any other Python exception, by class name. *)
Inductive exn : Type :=
| CommandException (msg : string)
| UnicodeDecodeError (msg : string)
| KeyError (msg : string)
| StopIteration
| PyError (cls msg : string).

(** A call either returns or raises. *)
Inductive result (A : Type) : Type :=
| Ok (a : A)
| Raise (e : exn).
Arguments Ok {A} a.
Arguments Raise {A} e.

Definition bind {A B} (r : result A) (k : A -> result B) : result B :=
  match r with
  | Ok a => k a
  | Raise e => Raise e
  end.

(** [try: r except <handled>: handler]. *)
Definition try_except {A} (r : result A) (handled : exn -> bool)
           (handler : exn -> result A) : result A :=
  match r with
  | Ok a => Ok a
  | Raise e => if handled e then handler e else Raise e
  end.

Definition is_ok {A} (r : result A) : bool :=
  match r with Ok _ => true | Raise _ => false end.

(** A [dict] with string keys, in insertion order. *)
Definition dict (V : Type) : Type := list (string * V).

Fixpoint dict_get {V} (d : dict V) (k : string) : option V :=
  match d with
  | [] => None
  | (k', v) :: d' => if String.eqb k' k then Some v else dict_get d' k
  end.

(** [d[k] = v]: an existing key keeps its place, a new key goes last. *)
Fixpoint dict_set {V} (d : dict V) (k : string) (v : V) : dict V :=
  match d with
  | [] => [(k, v)]
  | (k', v') :: d' =>
      if String.eqb k' k then (k, v) :: d' else (k', v') :: dict_set d' k v
  end.

Definition keys {V} (d : dict V) : list string := map fst d.

(** [x.get(k)] on a row: [None] when the key is absent. *)
Definition get_or_none (d : dict pyval) (k : string) : pyval :=
  match dict_get d k with
  | Some v => v
  | None => VNone
  end.

End Py.
Import Py.

Declare Scope py_scope.
Notation "x <- c ;; k" := (bind c (fun x => k))
  (at level 61, c at next level, right associativity) : py_scope.
Local Open Scope py_scope.

(** ** The objects of [freenas.cli.output] and [freenas.cli.namespace] that
     the commands touch *)

(** Modelled from the spec: the members of [output.ValueType], whose
  declaration is imported from [freenas.cli.output]; section 3 of the
  design document lists the tags. *)
Inductive ValueType : Type :=
| STRING | NUMBER | BOOLEAN | SET | DICT | SIZE | TIME | ENUM.

(** [Table.Column(label, accessor, vt=None)]. *)
Record Column : Type := mkColumn {
  col_label : string;
  col_accessor : string;
  col_vt : option ValueType
}.

Definition row : Type := dict pyval.

(** [Table(data, columns)]: the rows in iteration order and the columns;
    iterating over a table goes over its rows. *)
Record Table : Type := mkTable {
  data : list row;
  columns : list Column
}.

(** What a command returns and what a pipe stage receives as [input]:
  a [Table], or any other value ([None] included). *)
Inductive output : Type :=
| OTable (t : Table)
| OValue (v : pyval).

Definition ONone : output := OValue VNone.

(** [isinstance(input, Table)]. *)
Definition isinstance_Table (i : output) : option Table :=
  match i with
  | OTable t => Some t
  | OValue _ => None
  end.

(** The attributes of a property mapping that the commands read:
  [mapping.name], [mapping.list] and [mapping.type]. *)
Record PropertyMapping : Type := mkMapping {
  pm_name : string;
  pm_list : bool;
  pm_type : ValueType
}.

(** The attributes of a namespace that the commands read. *)
Record Namespace : Type := mkNamespace {
  ns_name : string;
  property_mappings : list PropertyMapping;
  primary_key : option PropertyMapping
}.

(** [context.ml]: the main loop's navigation path and alias table. *)
Record MainLoop : Type := mkMainLoop {
  path : list Namespace;
  aliases : dict pyval
}.

Record Context : Type := mkContext {
  root_ns : Namespace;
  pipe_cwd : Namespace;
  ml : MainLoop
}.

Definition args_t : Type := list pyval.
Definition kwargs_t : Type := dict pyval.
(** An operator-arg [key <op> value]. *)
Abbreviation oparg := (string * string * pyval)%type.

(** One element of a serialized filter: a [(property, operator, value)]
  triple, or a tuple [(combinator, (operand, ...))] such as
  [('nor', (t,))]. *)
Inductive filter_item : Type :=
| Triple (property operator : string) (value : pyval)
| Logic (combinator : string) (operands : list filter_item).

(** The dict a [serialize_filter] returns: [{"filter": [...]}]. *)
Record query : Type := mkQuery {
  q_filter : list filter_item
}.

(** The functions and methods the commands call whose bodies live in other
  modules ([gettext], [str.format] on containers, [Namespace.has_property],
  [Namespace.get_mapping], [output.read_value],
  [PropertyMapping.do_get]). *)
Class Collaborators : Type := {
  gettext : string -> string;
  str_args : args_t -> string;
  str_kwargs : kwargs_t -> string;
  has_property : Namespace -> string -> bool;
  get_mapping : Namespace -> string -> result PropertyMapping;
  read_value : pyval -> ValueType -> result pyval;
  do_get : PropertyMapping -> row -> result pyval
}.

(** ** Pipe commands *)

Section PipeCommands.
Context {ext : Collaborators}.

(** The message of the [CommandException] that [map_opargs] raises for a
    key that is not a property: the design document's
    [UnknownPropertyError]. *)
Definition unknown_property_message (ns : Namespace) (k : string) : string :=
  gettext
    ("Property " ++ k ++ " not found, valid properties are: "
     ++ String.concat ","
          (map pm_name (filter pm_list (property_mappings ns)))).

Definition map_oparg (ns : Namespace) (a : oparg) : result filter_item :=
  let '(k, o, v) := a in
  if has_property ns k then
    mapping <- get_mapping ns k ;;
    v' <- read_value v (pm_type mapping) ;;
    Ok (Triple (pm_name mapping) o v')
  else
    Raise (CommandException (unknown_property_message ns k)).

(** [map_opargs(opargs, context)]: the loop appends one mapped triple per
    operator-arg and stops at the first exception. *)
Fixpoint map_opargs_loop (ns : Namespace) (opargs : list oparg)
         (mapped_opargs : list filter_item) : result (list filter_item) :=
  match opargs with
  | [] => Ok mapped_opargs
  | a :: rest =>
      t <- map_oparg ns a ;;
      map_opargs_loop ns rest (mapped_opargs ++ [t])
  end.

Definition map_opargs (opargs : list oparg) (context : Context)
  : result (list filter_item) :=
  map_opargs_loop (pipe_cwd context) opargs [].

Definition invalid_syntax (what : string) : exn :=
  CommandException
    (gettext ("Invalid syntax " ++ what ++ ". For help see 'help <command>'")).

(** [SearchPipeCommand.serialize_filter]: the operator-args are mapped
    first, then keyword and positional arguments are refused. *)
Definition SearchPipeCommand_serialize_filter (context : Context)
           (args : args_t) (kwargs : kwargs_t) (opargs : list oparg)
  : result query :=
  mapped_opargs <- map_opargs opargs context ;;
  if Nat.ltb 0 (length kwargs) then Raise (invalid_syntax (str_kwargs kwargs))
  else if Nat.ltb 0 (length args) then Raise (invalid_syntax (str_args args))
  else Ok (mkQuery mapped_opargs).

(** [ExcludePipeCommand.serialize_filter]: the same, and then the loop
    [for i in mapped_opargs: result.append(('nor', (i,)))]. *)
Definition ExcludePipeCommand_serialize_filter (context : Context)
           (args : args_t) (kwargs : kwargs_t) (opargs : list oparg)
  : result query :=
  mapped_opargs <- map_opargs opargs context ;;
  if Nat.ltb 0 (length kwargs) then Raise (invalid_syntax (str_kwargs kwargs))
  else if Nat.ltb 0 (length args) then Raise (invalid_syntax (str_args args))
  else
    Ok (mkQuery
          (fold_left (fun result i => result ++ [Logic "nor" [i]])
                     mapped_opargs [])).

(** [SearchPipeCommand.run] and the other stages that only contribute a
    query: the input is handed on. *)
Definition SearchPipeCommand_run (context : Context) (args : args_t)
           (kwargs : kwargs_t) (opargs : list oparg) (input : output)
  : result output := Ok input.

Definition OlderThanPipeCommand_run (context : Context) (args : args_t)
           (kwargs : kwargs_t) (opargs : list oparg) (input : output)
  : result output := Ok input.

Definition NewerThanPipeCommand_run (context : Context) (args : args_t)
           (kwargs : kwargs_t) (opargs : list oparg) (input : output)
  : result output := Ok input.

Definition TailPipeCommand_run (context : Context) (args : args_t)
           (kwargs : kwargs_t) (opargs : list oparg) (input : output)
  : result output := Ok input.

Definition ExcludePipeCommand_run (context : Context) (args : args_t)
           (kwargs : kwargs_t) (opargs : list oparg) (input : output)
  : result output := Ok input.

Definition SortPipeCommand_run (context : Context) (args : args_t)
           (kwargs : kwargs_t) (opargs : list oparg) (input : output)
  : result output := Ok input.

Definition LimitPipeCommand_run (context : Context) (args : args_t)
           (kwargs : kwargs_t) (opargs : list oparg) (input : output)
  : result output := Ok input.

(** [next(iter(input.data))]. *)
Definition next_iter {A} (l : list A) : result A :=
  match l with
  | [] => Raise StopIteration
  | first :: _ => Ok first
  end.

(** [prop.do_get(first)], where [prop] may be [None]. *)
Definition call_do_get (prop : option PropertyMapping) (first : row)
  : result pyval :=
  match prop with
  | Some p => do_get p first
  | None =>
      Raise (PyError "AttributeError"
                     "'NoneType' object has no attribute 'do_get'")
  end.

Definition is_StopIteration_or_KeyError (e : exn) : bool :=
  match e with
  | StopIteration | KeyError _ => true
  | _ => false
  end.

(** [FindPipeCommand.run]: overrides the inherited [SearchPipeCommand.run];
    a function that falls off its end returns [None]. *)
Definition FindPipeCommand_run (context : Context) (args : args_t)
           (kwargs : kwargs_t) (opargs : list oparg) (input : output)
  : result output :=
  let ns := pipe_cwd context in
  let prop := primary_key ns in
  match isinstance_Table input with
  | Some t =>
      try_except
        (first <- next_iter (data t) ;;
         v <- call_do_get prop first ;;
         Ok (OValue v))
        is_StopIteration_or_KeyError
        (fun _ => Ok ONone)
  | None => Ok ONone
  end.

(** [x.get(key)] on a row whose keys are strings: a hashable key that is
    not a string is not found; a list is not hashable. *)
Definition row_get (x : row) (key : pyval) : result pyval :=
  match key with
  | VStr k => Ok (get_or_none x k)
  | VList _ => Raise (PyError "TypeError" "unhashable type: 'list'")
  | _ => Ok VNone
  end.

(** The generator [({'result': x.get(args[0])} for x in input)], run to its
    end: the new table's rows, or the exception its consumer meets. *)
Fixpoint select_rows (key : pyval) (rows : list row) : result (list row) :=
  match rows with
  | [] => Ok []
  | x :: rest =>
      v <- row_get x key ;;
      rest' <- select_rows key rest ;;
      Ok ([("result", v)] :: rest')
  end.

(** The exception of [select] for a wrong number of fields: the design
    document's [ArityError]. *)
Definition ArityError : exn :=
  CommandException "Please specify exactly one field name".

Definition SelectPipeCommand_run (context : Context) (args : args_t)
           (kwargs : kwargs_t) (opargs : list oparg) (input : output)
  : result output :=
  if negb (Nat.eqb (length args) 1) then Raise ArityError
  else
    match isinstance_Table input with
    | Some t =>
        rows <- select_rows (nth 0 args VNone) (data t) ;;
        Ok (OTable (mkTable rows [mkColumn "Result" "result" None]))
    | None => Ok ONone
    end.

(** The pipe commands of the module and the [run] each one answers to. *)
Inductive pipe_command : Type :=
| SearchPipeCommand
| FindPipeCommand
| OlderThanPipeCommand
| NewerThanPipeCommand
| TailPipeCommand
| ExcludePipeCommand
| SortPipeCommand
| LimitPipeCommand
| SelectPipeCommand.

Definition run (c : pipe_command)
  : Context -> args_t -> kwargs_t -> list oparg -> output -> result output :=
  match c with
  | SearchPipeCommand => SearchPipeCommand_run
  | FindPipeCommand => FindPipeCommand_run
  | OlderThanPipeCommand => OlderThanPipeCommand_run
  | NewerThanPipeCommand => NewerThanPipeCommand_run
  | TailPipeCommand => TailPipeCommand_run
  | ExcludePipeCommand => ExcludePipeCommand_run
  | SortPipeCommand => SortPipeCommand_run
  | LimitPipeCommand => LimitPipeCommand_run
  | SelectPipeCommand => SelectPipeCommand_run
  end.

End PipeCommands.

(** ** Builtin commands that write session state *)

Definition set_path (context : Context) (p : list Namespace) : Context :=
  mkContext (root_ns context) (pipe_cwd context)
            (mkMainLoop p (aliases (ml context))).

Definition set_aliases (context : Context) (a : dict pyval) : Context :=
  mkContext (root_ns context) (pipe_cwd context)
            (mkMainLoop (path (ml context)) a).

(** [TopCommand.run]: [context.ml.path = [context.root_ns]]. *)
Definition TopCommand_run (context : Context) (args : args_t)
           (kwargs : kwargs_t) (opargs : list oparg)
  : result output * Context :=
  (Ok ONone, set_path context [root_ns context]).

(** The loop [for name, value in kwargs.items(): aliases[name] = value]. *)
Definition update_aliases (a : dict pyval) (kwargs : kwargs_t) : dict pyval :=
  fold_left (fun a' nv => dict_set a' (fst nv) (snd nv)) kwargs a.

Definition alias_row (kv : string * pyval) : row :=
  [("label", VStr (fst kv)); ("value", snd kv)].

(** [AliasCommand.run]: without keyword arguments the alias table is
    listed, otherwise every [name=value] is stored. *)
Definition AliasCommand_run (context : Context) (args : args_t)
           (kwargs : kwargs_t) (opargs : list oparg)
  : result output * Context :=
  match kwargs with
  | [] =>
      (Ok (OTable (mkTable (map alias_row (aliases (ml context)))
                           [mkColumn "Alias name" "label" None;
                            mkColumn "Alias value" "value" None])),
       context)
  | _ :: _ =>
      (Ok ONone,
       set_aliases context (update_aliases (aliases (ml context)) kwargs))
  end.

(** ** [source]: running script files *)

(** What [SourceCommand.run] does to the world, in the order it does it. *)
Inductive event : Type :=
| Opened (filename : string)
| Evaluated (filename : string).

Section Source.
Context {ext : Collaborators}.

(** The session and the file system, as the calls below see and change
    them. *)
Variable World : Type.
(** The parser's syntax trees. *)
Variable ast : Type.
(** [os.path.expanduser], [os.path.isfile], [open(arg, 'rb')] followed by
    [f.read()], [bytes.decode('utf8')], [parser.parse] and
    [context.eval_block]. *)
Variable expanduser : string -> string.
Variable isfile : World -> string -> bool.
Variable open_read : World -> string -> result (list Byte.byte).
Variable decode_utf8 : list Byte.byte -> result string.
Variable parse : string -> string -> result ast.
Variable eval_block : ast -> World -> result unit * World.

(** The world together with the record of what the command has done. *)
Record source_state : Type := mkState {
  world : World;
  trace : list event
}.

Definition log (ev : event) (s : source_state) : source_state :=
  mkState (world s) (trace s ++ [ev]).

(** [except UnicodeDecodeError as e: raise CommandException(...)]. *)
Definition reraise_decode_error {A} (r : result A) : result A :=
  match r with
  | Raise (UnicodeDecodeError msg) =>
      Raise (CommandException
               (gettext ("Incorrect filetype, cannot parse file: " ++ msg)))
  | _ => r
  end.

(** The body of the loop over [args]. *)
Definition source_file (arg0 : string) (s : source_state)
  : result unit * source_state :=
  let arg := expanduser arg0 in
  if isfile (world s) arg then
    let s1 := log (Opened arg) s in
    match (bytes <- open_read (world s) arg ;;
           text <- decode_utf8 bytes ;;
           parse text arg) with
    | Ok tree =>
        let (r, w) := eval_block tree (world s1) in
        (reraise_decode_error r, mkState w (trace s1 ++ [Evaluated arg]))
    | Raise e => (reraise_decode_error (Raise e), s1)
    end
  else
    (Raise (CommandException (gettext ("File " ++ arg ++ " does not exist."))),
     s).

Fixpoint source_files (args : list string) (s : source_state)
  : result unit * source_state :=
  match args with
  | [] => (Ok tt, s)
  | arg :: rest =>
      match source_file arg s with
      | (Ok _, s') => source_files rest s'
      | (Raise e, s') => (Raise e, s')
      end
  end.

(** [SourceCommand.run], on the filenames given as [args]. *)
Definition SourceCommand_run (args : list string) (s : source_state)
  : result unit * source_state :=
  if Nat.eqb (length args) 0 then
    (Raise (CommandException
              (gettext "Please provide a filename. For help see 'help <command>'")),
     s)
  else source_files args s.

(** The events of a file that was opened and evaluated. *)
Definition sourced (arg0 : string) : list event :=
  [Opened (expanduser arg0); Evaluated (expanduser arg0)].

End Source.

(** ** The data source's reading of a filter *)

Section DataSource.

(** How the data source compares a row's field with a value under an
    operator, and what it makes of a combinator other than ['nor']. *)
Variable op_holds : string -> pyval -> pyval -> bool.
Variable other_logic : string -> list bool -> bool.

(** Modelled from the spec: the data source's evaluation of one element of
    a composed query on a row. The evaluator is not part of these sources;
    section 4.5 of the design document has a filter be [(property,
    operator, value)] triples and has [exclude] wrap its triples in a
    negation combinator. *)
Fixpoint holds (r : row) (f : filter_item) : bool :=
  match f with
  | Triple property operator value =>
      op_holds operator (get_or_none r property) value
  | Logic combinator operands =>
      let bs := map (holds r) operands in
      if String.eqb combinator "nor" then negb (existsb (fun b => b) bs)
      else other_logic combinator bs
  end.

(** Modelled from the spec: a composed query is the conjunction of its
    elements (section 4.5), and the data source returns the rows on which
    it holds. *)
Definition matches (q : query) (r : row) : bool :=
  forallb (holds r) (q_filter q).

Definition apply_query (q : query) (rows : list row) : list row :=
  filter (matches q) rows.

End DataSource.

(** ** A namespace to run the model on *)

Module Sample.

Definition name_is (k : string) (m : PropertyMapping) : bool :=
  String.eqb (pm_name m) k.

(** Collaborators that look a property up by name, read [yes] and [no] as
    booleans and let every other value through, and raise [KeyError] for a
    field a row lacks. *)
Definition collaborators : Collaborators := {|
  gettext := fun s => s;
  str_args := fun _ => "[...]";
  str_kwargs := fun _ => "{...}";
  has_property := fun ns k => existsb (name_is k) (property_mappings ns);
  get_mapping := fun ns k =>
    match find (name_is k) (property_mappings ns) with
    | Some m => Ok m
    | None => Raise (PyError "IndexError" "list index out of range")
    end;
  read_value := fun v t =>
    match t, v with
    | BOOLEAN, VStr "yes" => Ok (VBool true)
    | BOOLEAN, VStr "no" => Ok (VBool false)
    | BOOLEAN, VBool b => Ok (VBool b)
    | BOOLEAN, _ => Raise (PyError "ValueError" "Invalid value")
    | _, _ => Ok v
    end;
  do_get := fun p r =>
    match dict_get r (pm_name p) with
    | Some v => Ok v
    | None => Raise (KeyError (pm_name p))
    end
|}.

Definition name_mapping : PropertyMapping := mkMapping "name" true STRING.
Definition uid_mapping : PropertyMapping := mkMapping "uid" true NUMBER.
Definition hash_mapping : PropertyMapping := mkMapping "unixhash" false STRING.
Definition builtin_mapping : PropertyMapping := mkMapping "builtin" true BOOLEAN.

Definition users : Namespace :=
  mkNamespace "user"
              [name_mapping; uid_mapping; hash_mapping; builtin_mapping]
              (Some name_mapping).

Definition root : Namespace := mkNamespace "/" [] None.

Definition context : Context :=
  mkContext root users (mkMainLoop [root; users] [("us", VStr "account user show")]).

Definition root_row : row :=
  [("name", VStr "root"); ("uid", VInt 0); ("builtin", VBool true)].
Definition alice_row : row :=
  [("name", VStr "alice"); ("uid", VInt 1000); ("builtin", VBool false)].

Definition user_table : Table :=
  mkTable [root_row; alice_row]
          [mkColumn "Name" "name" None; mkColumn "UID" "uid" None].

Fixpoint pyval_eqb (a b : pyval) : bool :=
  match a, b with
  | VNone, VNone => true
  | VStr x, VStr y => String.eqb x y
  | VInt x, VInt y => Z.eqb x y
  | VBool x, VBool y => Bool.eqb x y
  | VList xs, VList ys =>
      (fix all2 (l1 l2 : list pyval) : bool :=
         match l1, l2 with
         | [], [] => true
         | x :: l1', y :: l2' => pyval_eqb x y && all2 l1' l2'
         | _, _ => false
         end) xs ys
  | _, _ => false
  end.

(** A data source that knows [==] and [!=]. *)
Definition op_holds (o : string) (field value : pyval) : bool :=
  if String.eqb o "==" then pyval_eqb field value
  else if String.eqb o "!=" then negb (pyval_eqb field value)
  else false.

Definition other_logic (c : string) (bs : list bool) : bool :=
  if String.eqb c "and" then forallb (fun b => b) bs
  else if String.eqb c "or" then existsb (fun b => b) bs
  else false.

(** A world of script files: a file is missing, holds bytes that are not
    UTF-8, or holds a script that runs or fails. *)
Inductive script : Type := Missing | Garbled | Runs | Fails.

Definition files (f : string) : script :=
  if String.eqb f "a.cli" then Runs
  else if String.eqb f "b.cli" then Runs
  else if String.eqb f "bad.cli" then Fails
  else if String.eqb f "blob" then Garbled
  else Missing.

Definition isfile (w : nat) (f : string) : bool :=
  match files f with Missing => false | _ => true end.

Definition open_read (w : nat) (f : string) : result (list Byte.byte) :=
  match files f with
  | Missing => Raise (PyError "FileNotFoundError" f)
  | Garbled => Ok [Byte.xff]
  | Runs => Ok [Byte.x31]
  | Fails => Ok [Byte.x30]
  end.

Definition decode_utf8 (b : list Byte.byte) : result string :=
  match b with
  | [Byte.x31] => Ok "1"
  | [Byte.x30] => Ok "0"
  | _ => Raise (UnicodeDecodeError "invalid start byte")
  end.

Definition parse (text filename : string) : result bool :=
  Ok (String.eqb text "1").

(** The world counts the scripts evaluated. *)
Definition eval_block (tree : bool) (w : nat) : result unit * nat :=
  if tree then (Ok tt, S w)
  else (Raise (CommandException "command failed"), S w).

Definition by_name : list oparg := [("name", "==", VStr "root")].

Definition start : source_state nat := mkState nat 0 [].

(** [source] in this world; no home directory to expand. *)
Definition source (args : list string) (s : source_state nat)
  : result unit * source_state nat :=
  SourceCommand_run (ext := collaborators) nat bool (fun f => f) isfile
                    open_read decode_utf8 parse eval_block args s.

End Sample.

(** ** More of Python: text, equality, deletion *)

Module PyText.

Definition TypeError (msg : string) : exn := PyError "TypeError" msg.
Definition IndexError (msg : string) : exn := PyError "IndexError" msg.
Definition AttributeError (msg : string) : exn := PyError "AttributeError" msg.

(** [type(v).__name__]. *)
Definition type_name (v : pyval) : string :=
  match v with
  | VNone => "NoneType"
  | VStr _ => "str"
  | VInt _ => "int"
  | VBool _ => "bool"
  | VList _ => "list"
  end.

(** [str(n)] for an integer. *)
Definition str_of_nat (n : nat) : string :=
  DecimalString.NilZero.string_of_uint (Nat.to_uint n).

Definition str_of_Z (z : Z) : string :=
  DecimalString.NilZero.string_of_int (Z.to_int z).

(** [isinstance(v, list)]. *)
Definition isinstance_list (v : pyval) : bool :=
  match v with
  | VList _ => true
  | _ => false
  end.

(** [isinstance(v, int)]; [bool] is a subclass of [int]. *)
Definition isinstance_int (v : pyval) : bool :=
  match v with
  | VInt _ | VBool _ => true
  | _ => false
  end.

(** [sep.join(items)]: every item has to be a [str]; the first one that is
    not raises [TypeError]. *)
Fixpoint join_from (i : nat) (items : list pyval) : result (list string) :=
  match items with
  | [] => Ok []
  | VStr s :: rest =>
      l <- join_from (S i) rest ;;
      Ok (s :: l)
  | v :: _ =>
      Raise (TypeError ("sequence item " ++ str_of_nat i
                        ++ ": expected str instance, " ++ type_name v
                        ++ " found"))
  end.

Definition join (sep : string) (items : list pyval) : result string :=
  l <- join_from 0 items ;;
  Ok (String.concat sep l).

(** The number an [int] or a [bool] stands for. *)
Definition as_number (v : pyval) : option Z :=
  match v with
  | VInt z => Some z
  | VBool true => Some 1%Z
  | VBool false => Some 0%Z
  | _ => None
  end.

(** [a == b]: numbers compare by value ([True == 1]), lists item by
    item, and values of different kinds are unequal. *)
Fixpoint py_eq (a b : pyval) : bool :=
  match a, b with
  | VNone, VNone => true
  | VStr x, VStr y => String.eqb x y
  | VList xs, VList ys =>
      (fix all2 (l1 l2 : list pyval) : bool :=
         match l1, l2 with
         | [], [] => true
         | x :: l1', y :: l2' => py_eq x y && all2 l1' l2'
         | _, _ => false
         end) xs ys
  | (VInt _ | VBool _), (VInt _ | VBool _) =>
      match as_number a, as_number b with
      | Some x, Some y => Z.eqb x y
      | _, _ => false
      end
  | _, _ => false
  end.

(** [k in d]. *)
Definition dict_mem {V} (d : dict V) (k : string) : bool :=
  match dict_get d k with
  | Some _ => true
  | None => false
  end.

(** [del d[k]], for a key that is there; the other entries keep their
    order. *)
Definition dict_del {V} (d : dict V) (k : string) : dict V :=
  filter (fun kv => negb (String.eqb (fst kv) k)) d.

(** [d[k]]. *)
Definition dict_item (d : dict pyval) (k : string) : result pyval :=
  match dict_get d k with
  | Some v => Ok v
  | None => Raise (KeyError k)
  end.

End PyText.
Import PyText.

(** The dict a [serialize_filter] returns when it sets query parameters:
    [{"params": {...}}]. *)
Record params_query : Type := mkParams {
  q_params : dict pyval
}.

Section MoreCommands.
Context {ext : Collaborators}.

(** ** [unalias] *)

(** The loop [for name in args: if name in aliases: del aliases[name]].
    The keys of the alias table are strings, so another hashable value is
    never among them; a list cannot be hashed. *)
Fixpoint unalias_loop (args : args_t) (a : dict pyval)
  : result unit * dict pyval :=
  match args with
  | [] => (Ok tt, a)
  | VStr name :: rest =>
      unalias_loop rest (if dict_mem a name then dict_del a name else a)
  | VList _ :: _ => (Raise (TypeError "unhashable type: 'list'"), a)
  | _ :: rest => unalias_loop rest a
  end.

Definition UnaliasCommand_run (context : Context) (args : args_t)
           (kwargs : kwargs_t) (opargs : list oparg)
  : result output * Context :=
  let (r, a) := unalias_loop args (aliases (ml context)) in
  (_ <- r ;; Ok ONone, set_aliases context a).

(** ** The stages that set query parameters *)

Definition LimitPipeCommand_serialize_filter (context : Context)
           (args : args_t) (kwargs : kwargs_t) (opargs : list oparg)
  : result params_query :=
  if Nat.eqb (length args) 0 then
    Raise (CommandException (gettext "Please specify a number to limit."))
  else if negb (isinstance_int (nth 0 args VNone)) || Nat.ltb 1 (length args)
  then Raise (invalid_syntax (str_args args))
  else Ok (mkParams [("limit", nth 0 args VNone)]).

Definition TailPipeCommand_serialize_filter (context : Context)
           (args : args_t) (kwargs : kwargs_t) (opargs : list oparg)
  : result params_query :=
  if Nat.eqb (length args) 0 then
    Raise (CommandException (gettext "Please specify a number to limit."))
  else if negb (isinstance_int (nth 0 args VNone)) || Nat.ltb 1 (length args)
  then Raise (invalid_syntax (str_args args))
  else Ok (mkParams [("sort", VList [VStr "-timestamp"]);
                     ("limit", nth 0 args VNone);
                     ("reverse", VBool true)]).

Definition SortPipeCommand_serialize_filter (context : Context)
           (args : args_t) (kwargs : kwargs_t) (opargs : list oparg)
  : result params_query :=
  Ok (mkParams [("sort", VList args)]).

(** ** [echo] *)

(** [str(item)] for an item that is not a list. *)
Definition str_scalar (item : pyval) : string :=
  match item with
  | VStr s => s
  | VInt z => str_of_Z z
  | VBool true => "True"
  | VBool false => "False"
  | VNone => "None"
  | VList _ => ""
  end.

(** [echo_seq[-1] = x]. *)
Fixpoint set_last (echo_seq : list pyval) (x : pyval) : list pyval :=
  match echo_seq with
  | [] => []
  | [_] => [x]
  | y :: rest => y :: set_last rest x
  end.

(** One turn of the loop over [enumerate(args)]; [prev] is [args[i - 1]],
    and [None] when [i == 0]. Of the classes the source tests for, a value
    handed over by the parser can only be a list. *)
Definition echo_step (prev : option pyval) (item : pyval)
           (echo_seq : list pyval) : result (list pyval) :=
  let after_container :=
    match prev with
    | None => true
    | Some p => isinstance_list p
    end in
  match item with
  | VList items =>
      s <- join ", " items ;;
      Ok (echo_seq ++ [VStr s])
  | _ =>
      if after_container then Ok (echo_seq ++ [item])
      else
        match rev echo_seq with
        | [] => Raise (IndexError "list index out of range")
        | last :: _ =>
            s <- join " " [last; VStr (str_scalar item)] ;;
            Ok (set_last echo_seq (VStr s))
        end
  end.

Fixpoint echo_loop (prev : option pyval) (args : args_t)
         (echo_seq : list pyval) : result (list pyval) :=
  match args with
  | [] => Ok echo_seq
  | item :: rest =>
      echo_seq' <- echo_step prev item echo_seq ;;
      echo_loop (Some item) rest echo_seq'
  end.

Definition EchoCommand_run (context : Context) (args : args_t)
           (kwargs : kwargs_t) (opargs : list oparg) : result output :=
  if Nat.eqb (length args) 0 then Ok (OValue (VStr ""))
  else
    echo_seq <- echo_loop None args [] ;;
    s <- join " " echo_seq ;;
    Ok (OValue (VStr s)).

End MoreCommands.

(** ** Python's string methods, on ASCII text *)

Module PyStr.

(** [s.replace(a, b)] for one-character [a] and [b]. *)
Fixpoint replace_char (a b : ascii) (s : string) : string :=
  match s with
  | EmptyString => EmptyString
  | String c s' =>
      String (if Ascii.eqb c a then b else c) (replace_char a b s')
  end.

(** [c.isspace()]: tab to carriage return, the four separators and the
    blank. *)
Definition isspace (c : ascii) : bool :=
  let n := nat_of_ascii c in
  (Nat.leb 9 n && Nat.leb n 13) || (Nat.leb 28 n && Nat.leb n 32).

Fixpoint lstrip (s : string) : string :=
  match s with
  | EmptyString => EmptyString
  | String c s' => if isspace c then lstrip s' else s
  end.

Fixpoint rstrip (s : string) : string :=
  match s with
  | EmptyString => EmptyString
  | String c s' =>
      match rstrip s' with
      | EmptyString => if isspace c then EmptyString else String c EmptyString
      | r => String c r
      end
  end.

(** [s.strip()]. *)
Definition strip (s : string) : string := rstrip (lstrip s).

(** [s.endswith(c)] and [s.startswith(c)] for a character [c]. *)
Fixpoint endswith (s : string) (c : ascii) : bool :=
  match s with
  | EmptyString => false
  | String a EmptyString => Ascii.eqb a c
  | String _ s' => endswith s' c
  end.

Definition startswith (s : string) (c : ascii) : bool :=
  match s with
  | EmptyString => false
  | String a _ => Ascii.eqb a c
  end.

(** [c in s]. *)
Fixpoint contains (s : string) (c : ascii) : bool :=
  match s with
  | EmptyString => false
  | String a s' => Ascii.eqb a c || contains s' c
  end.

Definition lower_char (c : ascii) : ascii :=
  let n := nat_of_ascii c in
  if Nat.leb 65 n && Nat.leb n 90 then ascii_of_nat (n + 32) else c.

(** [s.lower()]. *)
Fixpoint lower (s : string) : string :=
  match s with
  | EmptyString => EmptyString
  | String c s' => String (lower_char c) (lower s')
  end.

(** [s.split(c, maxsplit)]. *)
Fixpoint split (c : ascii) (maxsplit : nat) (s : string) : list string :=
  match s with
  | EmptyString => [EmptyString]
  | String a s' =>
      match maxsplit with
      | O => [s]
      | S m =>
          if Ascii.eqb a c then EmptyString :: split c m s'
          else
            match split c maxsplit s' with
            | h :: t => String a h :: t
            | [] => [String a EmptyString]
            end
      end
  end.

Definition isdigit_char (c : ascii) : bool :=
  let n := nat_of_ascii c in Nat.leb 48 n && Nat.leb n 57.

Fixpoint all_digits (s : string) : bool :=
  match s with
  | EmptyString => true
  | String c s' => isdigit_char c && all_digits s'
  end.

(** [s.isdigit()]: one digit at least and digits only. *)
Definition isdigit (s : string) : bool :=
  match s with
  | EmptyString => false
  | _ => all_digits s
  end.

(** [int(s)] for a string of digits, the only strings it is called on
    here; on any other string this raises, although Python reads signs,
    blanks and underscores too. *)
Definition int_of_digits (s : string) : result Z :=
  match DecimalString.NilZero.uint_of_string s with
  | Some d => Ok (Z.of_N (N.of_uint d))
  | None =>
      Raise (PyError "ValueError"
                     ("invalid literal for int() with base 10: '" ++ s ++ "'"))
  end.

(** The double quote, as a string of one character. *)
Definition dquote : string := String (ascii_of_nat 34) EmptyString.

(** [posixpath.join(a, b)]. *)
Definition path_join (a b : string) : string :=
  if startswith b "/" then b
  else if String.eqb a "" || endswith a "/" then (a ++ b)%string
  else (a ++ "/" ++ b)%string.

End PyStr.
Import PyStr.

(** ** [cd] *)

(** [copy.copy(i)] with [name] assigned. *)
Definition with_name (i : Namespace) (name : string) : Namespace :=
  mkNamespace name (property_mappings i) (primary_key i).

(** [ChangeNamespaceCommand.mod_namespaces]. *)
Definition mod_namespaces (nslist : list Namespace) (prepend : string)
  : list Namespace :=
  let prepend :=
    if negb (String.eqb prepend "") && negb (endswith prepend "/")
    then (prepend ++ "/")%string else prepend in
  fold_left
    (fun modded_ns i =>
       modded_ns ++ [with_name i (prepend ++ ns_name i ++ "/")%string])
    nslist [].

(** [args[0][0] + args[0][1:].replace('/', ' ').strip()] on a string. *)
Definition cd_line (s : string) : result string :=
  match s with
  | EmptyString => Raise (IndexError "string index out of range")
  | String c rest => Ok (String c (strip (replace_char "/" " " rest)))
  end.

Section ChangeNamespace.
Context {ext : Collaborators}.

(** [context.ml.process(line)]: the main loop runs the line. *)
Variable process : string -> Context -> result output * Context.

(** The same expression on whatever the first argument is. *)
Definition cd_path (a : pyval) : result string :=
  match a with
  | VStr s => cd_line s
  | VList [] => Raise (IndexError "list index out of range")
  | VList (_ :: _) =>
      Raise (AttributeError "'list' object has no attribute 'replace'")
  | v => Raise (TypeError ("'" ++ type_name v ++ "' object is not subscriptable"))
  end.

Definition ChangeNamespaceCommand_run (context : Context) (args : args_t)
           (kwargs : kwargs_t) (opargs : list oparg)
  : result output * Context :=
  match kwargs with
  | _ :: _ =>
      (Raise (CommandException
                (gettext "You cannot specify command like properties in this navigation command")),
       context)
  | [] =>
      if Nat.ltb 1 (length args) then
        (Raise (CommandException
                  (gettext ("Invalid syntax: " ++ str_args args
                            ++ ". For help see " ++ dquote ++ "help <command>"
                            ++ dquote))),
         context)
      else if Nat.eqb (length args) 1 then
        match cd_path (nth 0 args VNone) with
        | Ok line => process line context
        | Raise e => (Raise e, context)
        end
      else (Ok ONone, context)
  end.

End ChangeNamespace.

(** ** [history] *)

Section History.
Context {ext : Collaborators}.

(** [int(s)] for a string: the number it denotes, if it denotes one. *)
Variable int_of_str : string -> option Z.

(** [int(v)]. *)
Definition py_int (v : pyval) : result Z :=
  match v with
  | VInt z => Ok z
  | VBool true => Ok 1%Z
  | VBool false => Ok 0%Z
  | VStr s =>
      match int_of_str s with
      | Some z => Ok z
      | None =>
          Raise (PyError "ValueError"
                         ("invalid literal for int() with base 10: '" ++ s
                          ++ "'"))
      end
  | _ =>
      Raise (TypeError
               ("int() argument must be a string, a bytes-like object or a real number, not '"
                ++ type_name v ++ "'"))
  end.

Definition is_ValueError (e : exn) : bool :=
  match e with
  | PyError cls _ => String.eqb cls "ValueError"
  | _ => false
  end.

(** [readline.get_history_item(i)]: items count from one, and there is
    [None] where there is no item. *)
Definition get_history_item (history : list string) (i : nat) : pyval :=
  match i with
  | O => VNone
  | S j =>
      match nth_error history j with
      | Some line => VStr line
      | None => VNone
      end
  end.

(** [range(1, stop)]. *)
Definition range_from_1 (stop : Z) : list nat := seq 1 (Z.to_nat (stop - 1)).

(** [HistoryCommand.run], on the lines [readline] holds. *)
Definition HistoryCommand_run (history : list string) (context : Context)
           (args : args_t) (kwargs : kwargs_t) (opargs : list oparg)
  : result output :=
  desired_range <-
    match args with
    | [] => Ok None
    | _ :: _ =>
        if negb (Nat.eqb (length args) 1) then
          Raise (CommandException
                   (gettext "Invalid Syntax for history command. For help see 'help <command>'"))
        else
          try_except
            (z <- py_int (nth 0 args VNone) ;; Ok (Some z))
            is_ValueError
            (fun _ =>
               Raise (CommandException
                        (gettext "Please specify an integer for the history range")))
    end ;;
  let histroy_range := Z.of_nat (length history) in
  let histroy_range :=
    match desired_range with
    | Some d => if Z.ltb d histroy_range then (d + 1)%Z else histroy_range
    | None => histroy_range
    end in
  Ok (OTable
        (mkTable
           (map (fun i => [("cmd", get_history_item history i)])
                (range_from_1 histroy_range))
           [mkColumn "Command History" "cmd" (Some STRING)])).

End History.

(** * freenas.cli.plugins.shares *)

(** ** Share targets *)

Section Shares.
Context {ext : Collaborators}.

(** [str] of a list, which [format] needs when a field holds one. *)
Variable str_list : list pyval -> string.
(** [str.format] of a translated template on one argument. *)
Variable str_format : string -> string -> string.

Definition py_str (v : pyval) : string :=
  match v with
  | VList items => str_list items
  | _ => str_scalar v
  end.

(** [BaseSharesNamespace.get_share_target]. *)
Definition get_share_target (obj : dict pyval) : result string :=
  target_path <- dict_item obj "target_path" ;;
  target_type <- dict_item obj "target_type" ;;
  match target_type with
  | VStr t => Ok (py_str target_path ++ " (" ++ lower t ++ ")")%string
  | v =>
      Raise (AttributeError
               ("'" ++ type_name v ++ "' object has no attribute 'lower'"))
  end.

(** The setters of a share's target; [iscsi] is
    [type(self) is ISCSISharesNamespace]. *)
Definition set_share_dataset (iscsi : bool) (obj : dict pyval) (value : pyval)
  : dict pyval :=
  dict_set (dict_set obj "target_path" value)
           "target_type" (VStr (if iscsi then "ZVOL" else "DATASET")).

Definition set_share_path (iscsi : bool) (obj : dict pyval) (value : pyval)
  : dict pyval :=
  dict_set (dict_set obj "target_path" value)
           "target_type" (VStr (if iscsi then "FILE" else "DIRECTORY")).

Definition fspath (v : pyval) : result string :=
  match v with
  | VStr s => Ok s
  | _ =>
      Raise (TypeError ("expected str, bytes or os.PathLike object, not "
                        ++ type_name v))
  end.

(** [set_share_parent]: the path is worked out before anything is
    written. *)
Definition set_share_parent (iscsi : bool) (obj : dict pyval) (value : pyval)
  : result unit * dict pyval :=
  match (name <- dict_item obj "name" ;;
         a <- fspath value ;;
         b <- fspath name ;;
         Ok (path_join a b)) with
  | Ok p =>
      (Ok tt,
       dict_set (dict_set obj "target_path" (VStr p))
                "target_type" (VStr (if iscsi then "ZVOL" else "DATASET")))
  | Raise e => (Raise e, obj)
  end.

(** ** iSCSI portals *)

(** One element of [obj['listen']]: [{'address': ..., 'port': ...}]. *)
Record portal : Type := mkPortal {
  address : string;
  port : Z
}.

(** [ISCSIPortalsNamespace.get_portals], given [obj['listen']]. *)
Definition get_portals (listen : list portal) : list string :=
  map (fun i => (address i ++ ":" ++ str_of_Z (port i))%string) listen.

(** The inner function [pack] of [set_portals]. *)
Definition pack (item : pyval) : result portal :=
  match item with
  | VStr s =>
      let ret := split ":" 2 s in
      if Nat.ltb 1 (length ret) && negb (isdigit (nth 1 ret "")) then
        Raise (CommandException
                 (str_format (gettext "Invalid port number: {0}")
                             (nth 1 ret "")))
      else if Nat.eqb (length ret) 2 then
        p <- int_of_digits (nth 1 ret "") ;;
        Ok (mkPortal (nth 0 ret "") p)
      else Ok (mkPortal (nth 0 ret "") 3260)
  | v =>
      Raise (AttributeError
               ("'" ++ type_name v ++ "' object has no attribute 'split'"))
  end.

Fixpoint map_pack (value : list pyval) : result (list portal) :=
  match value with
  | [] => Ok []
  | item :: rest =>
      p <- pack item ;;
      ps <- map_pack rest ;;
      Ok (p :: ps)
  end.

(** [ISCSIPortalsNamespace.set_portals]: [obj['listen']] before and after;
    it is assigned once every item is packed. *)
Definition set_portals (listen : list portal) (value : list pyval)
  : result unit * list portal :=
  match map_pack value with
  | Ok ps => (Ok tt, ps)
  | Raise e => (Raise e, listen)
  end.

(** ** Entities kept in a list of their parent *)

(** [[a for a in entities if a[key] != this[key]]]. *)
Fixpoint without (key : string) (this : row) (entities : list row)
  : result (list row) :=
  match entities with
  | [] => Ok []
  | a :: rest =>
      x <- dict_item a key ;;
      y <- dict_item this key ;;
      rest' <- without key this rest ;;
      Ok (if negb (py_eq x y) then a :: rest' else rest')
  end.

(** [self.parent.save()], on the parent's list as it then is. *)
Variable parent_save : list row -> result output.

Definition delete_from (key : string) (entities : option (list row))
           (this : row) : result output * option (list row) :=
  match entities with
  | None =>
      (Raise (TypeError "'NoneType' object is not iterable"), None)
  | Some l =>
      match without key this l with
      | Ok l' => (parent_save l', Some l')
      | Raise e => (Raise e, Some l)
      end
  end.

(** [ISCSIUsersNamespace.delete], on [self.parent.entity['users']]. *)
Definition ISCSIUsersNamespace_delete (users : option (list row))
           (this : row) : result output * option (list row) :=
  delete_from "name" users this.

(** [ISCSIUsersNamespace.query]: [self.parent.entity['users'] or []]. *)
Definition ISCSIUsersNamespace_query (users : option (list row)) : list row :=
  match users with
  | Some l => l
  | None => []
  end.

End Shares.

(** ** Shares to run the model on *)

Module SampleShares.

(** [str.format] with the one field [{0}] at the end of the template. *)
Definition str_format (template arg : string) : string :=
  (substring 0 (String.length template - 3) template ++ arg)%string.

Definition str_list (items : list pyval) : string := "[...]".

Definition listen : list portal :=
  [mkPortal "192.168.1.10" 3260; mkPortal "127.0.0.1" 8888].

Definition share : dict pyval :=
  [("name", VStr "media"); ("target_path", VStr "tank/old");
   ("target_type", VStr "DATASET"); ("enabled", VBool true)].

Definition iscsi_users : list row :=
  [[("name", VStr "alice"); ("secret", VStr "abcdefghijkl")];
   [("name", VStr "bob"); ("secret", VStr "mnopqrstuvwx")];
   [("name", VStr "alice"); ("secret", VStr "yzabcdefghij")]].

Definition alice : row := [("name", VStr "alice")].

(** Saving the parent shows how many users it has. *)
Definition parent_save (l : list row) : result output :=
  Ok (OValue (VInt (Z.of_nat (length l)))).

(** A main loop that answers with the line it was given. *)
Definition process (line : string) (context : Context)
  : result output * Context :=
  (Ok (OValue (VStr line)), context).

End SampleShares.

(** * Properties *)

(** ** Dictionaries *)

Section DictFacts.
Context {V : Type}.
Implicit Types (d : dict V) (k : string) (v : V).

Lemma dict_set_same d k v v' :
  dict_set (dict_set d k v) k v' = dict_set d k v'.
Proof.
  induction d as [|[k0 v0] d IH]; simpl.
  - now rewrite String.eqb_refl.
  - destruct (String.eqb k0 k) eqn:E; simpl.
    + now rewrite String.eqb_refl.
    + now rewrite E, IH.
Qed.

Lemma dict_set_keeps_keys d k v k' :
  In k' (keys d) -> In k' (keys (dict_set d k v)).
Proof.
  induction d as [|[k0 v0] d IH]; simpl; [tauto|].
  intros [<-|H]; destruct (String.eqb k0 k) eqn:E; simpl; auto.
  apply String.eqb_eq in E. now left.
Qed.

Lemma dict_set_has_key d k v : In k (keys (dict_set d k v)).
Proof.
  induction d as [|[k0 v0] d IH]; simpl; [now left|].
  destruct (String.eqb k0 k); simpl; auto.
Qed.

(** Two assignments to different keys commute once the second key is
    already in the dictionary. *)
Lemma dict_set_comm d k v k' v' :
  k <> k' -> In k' (keys d) ->
  dict_set (dict_set d k v) k' v' = dict_set (dict_set d k' v') k v.
Proof.
  intros Hne. induction d as [|[k0 v0] d IH]; simpl; [tauto|].
  intros Hin.
  destruct (String.eqb k0 k) eqn:E; destruct (String.eqb k0 k') eqn:E'; simpl.
  - apply String.eqb_eq in E, E'. congruence.
  - apply String.eqb_eq in E. subst k0.
    apply String.eqb_neq in Hne. now rewrite Hne, String.eqb_refl.
  - apply String.eqb_eq in E'. subst k0.
    assert (Hne' : String.eqb k' k = false)
      by (apply String.eqb_neq; congruence).
    now rewrite String.eqb_refl, Hne'.
  - rewrite E, E'. f_equal. apply IH.
    destruct Hin as [->|Hin]; [|exact Hin].
    now rewrite String.eqb_refl in E'.
Qed.

End DictFacts.

(** ** [alias] and [top] *)

Lemma update_aliases_snoc a kwargs name value :
  update_aliases a (kwargs ++ [(name, value)])
  = dict_set (update_aliases a kwargs) name value.
Proof. unfold update_aliases. now rewrite fold_left_app. Qed.

Lemma update_aliases_keeps_keys kwargs : forall a k,
  In k (keys a) -> In k (keys (update_aliases a kwargs)).
Proof.
  induction kwargs as [|[n v] kwargs IH]; intros a k H; simpl; [exact H|].
  apply IH. now apply dict_set_keeps_keys.
Qed.

Lemma update_aliases_has_keys kwargs : forall a k,
  In k (keys kwargs) -> In k (keys (update_aliases a kwargs)).
Proof.
  induction kwargs as [|[n v] kwargs IH]; intros a k; simpl; [tauto|].
  intros [->|H].
  - apply update_aliases_keeps_keys, dict_set_has_key.
  - now apply IH.
Qed.

(** A later assignment to [name] absorbs an earlier one, when the
    assignments in between only touch keys that are already there. *)
Lemma update_aliases_absorbs kwargs : forall a name value,
  (forall k, In k (keys kwargs) -> In k (keys a)) ->
  dict_set (update_aliases (dict_set a name value) kwargs) name value
  = dict_set (update_aliases a kwargs) name value.
Proof.
  induction kwargs as [|[n v] kwargs IH]; intros a name value Hk; simpl.
  - apply dict_set_same.
  - destruct (String.eqb name n) eqn:E.
    + apply String.eqb_eq in E. subst n. now rewrite dict_set_same.
    + apply String.eqb_neq in E.
      rewrite dict_set_comm by (auto; apply Hk; now left).
      apply IH. intros k Hin. apply dict_set_keeps_keys, Hk. now right.
Qed.

Lemma update_aliases_idempotent kwargs : forall a,
  update_aliases (update_aliases a kwargs) kwargs = update_aliases a kwargs.
Proof.
  induction kwargs as [|[name value] kwargs IH] using rev_ind; intros a;
    [reflexivity|].
  rewrite !update_aliases_snoc.
  rewrite update_aliases_absorbs.
  - now rewrite IH.
  - intros k Hin. now apply update_aliases_has_keys.
Qed.

(** C8. Retrying [top] or [alias name=value ...] with the same input leaves
    the session as the first run left it: after [top] the navigation path
    is again the root alone, and after [alias] the alias table is the same
    dictionary, entry for entry and in the same order; both runs return
    [None] without raising. *)
Theorem top_and_alias_idempotent :
  forall (context : Context) (args : args_t) (kwargs : kwargs_t)
         (opargs : list oparg),
    (let once := TopCommand_run context args kwargs opargs in
     let twice := TopCommand_run (snd once) args kwargs opargs in
     snd twice = snd once /\ fst twice = fst once
     /\ path (ml (snd once)) = [root_ns context])
    /\
    (let once := AliasCommand_run context args kwargs opargs in
     let twice := AliasCommand_run (snd once) args kwargs opargs in
     snd twice = snd once /\ fst twice = fst once).
Proof.
  intros context args kwargs opargs. split.
  - cbn. auto.
  - destruct kwargs as [|nv kwargs]; [cbn; auto|].
    cbn -[update_aliases]. split; [|reflexivity].
    unfold set_aliases; cbn -[update_aliases].
    now rewrite (update_aliases_idempotent (nv :: kwargs)).
Qed.

(** ** Building filters *)

Section FilterFacts.
Context {ext : Collaborators}.

Lemma map_opargs_loop_app ns opargs : forall acc r,
  map_opargs_loop ns opargs acc = Ok r ->
  exists ts, r = acc ++ ts
             /\ Forall2 (fun a t => map_oparg ns a = Ok t) opargs ts.
Proof.
  induction opargs as [|a rest IH]; intros acc r H; simpl in H.
  - injection H as <-. exists []. now rewrite app_nil_r.
  - destruct (map_oparg ns a) as [t|e] eqn:Ha; simpl in H; [|discriminate].
    destruct (IH _ _ H) as (ts & -> & Hts).
    exists (t :: ts). rewrite <- app_assoc. split; [reflexivity|].
    now constructor.
Qed.




Lemma nor_loop ts : forall acc,
  fold_left (fun result i => result ++ [Logic "nor" [i]]) ts acc
  = acc ++ map (fun t => Logic "nor" [t]) ts.
Proof.
  induction ts as [|t ts IH]; intros acc; simpl.
  - now rewrite app_nil_r.
  - now rewrite IH, <- app_assoc.
Qed.

(** C1. When the operator-args map to the triples [ts], [exclude] called
    with operator-args alone serializes the filter
    [[('nor', (t1,)), ('nor', (t2,)), ...]]: one ['nor'] tuple around each
    triple of [ts], and [ts] holds the mapped operator-args one for one in
    the order given. *)
Theorem exclude_wraps_each_triple_in_nor :
  forall (context : Context) (opargs : list oparg) (ts : list filter_item),
    map_opargs opargs context = Ok ts ->
    ExcludePipeCommand_serialize_filter context [] [] opargs
    = Ok (mkQuery (map (fun t => Logic "nor" [t]) ts))
    /\ Forall2 (fun a t => map_oparg (pipe_cwd context) a = Ok t) opargs ts.
Proof.
  intros context opargs ts H.
  unfold ExcludePipeCommand_serialize_filter. rewrite H. simpl.
  rewrite nor_loop. split; [reflexivity|].
  apply map_opargs_loop_app in H. destruct H as (ts' & -> & H). exact H.
Qed.


(** C10. [search] and [exclude] take operator-args only: given any
    positional or keyword argument, serializing the filter raises and no
    filter is produced; when the operator-args themselves can be mapped,
    what is raised is the [Invalid syntax] exception, for the keyword
    arguments first. *)
Theorem positional_and_keyword_arguments_rejected :
  forall (context : Context) (args : args_t) (kwargs : kwargs_t)
         (opargs : list oparg),
    args <> [] \/ kwargs <> [] ->
    (exists e,
        SearchPipeCommand_serialize_filter context args kwargs opargs = Raise e
        /\ ExcludePipeCommand_serialize_filter context args kwargs opargs
           = Raise e
        /\ (is_ok (map_opargs opargs context) = true ->
            e = invalid_syntax
                  (if Nat.ltb 0 (length kwargs) then str_kwargs kwargs
                   else str_args args))).
Proof.
  intros context args kwargs opargs H.
  unfold SearchPipeCommand_serialize_filter,
    ExcludePipeCommand_serialize_filter.
  destruct (map_opargs opargs context) as [ts|e]; simpl.
  - destruct kwargs as [|kv kwargs]; simpl.
    + destruct args as [|a args]; simpl; [destruct H; congruence|].
      eexists. split; [reflexivity|]. split; reflexivity.
    + eexists. split; [reflexivity|]. split; reflexivity.
  - exists e. split; [reflexivity|]. split; [reflexivity|].
    intros Hok. discriminate Hok.
Qed.

End FilterFacts.

(** ** Stages that run on the materialized result *)

Section RunFacts.
Context {ext : Collaborators}.

Lemma select_rows_field field rows :
  select_rows (VStr field) rows
  = Ok (map (fun x => [("result", get_or_none x field)]) rows).
Proof.
  induction rows as [|x rows IH]; simpl; [reflexivity|].
  now rewrite IH.
Qed.

(** C3. [find] returns [None], and does not raise, when its input is not a
    table or is a table without rows; on a table with rows it returns what
    the primary-key mapping of the current namespace gets from the first
    row, and nothing of the other rows. *)
Theorem find_returns_first_primary_key :
  forall (context : Context) (args : args_t) (kwargs : kwargs_t)
         (opargs : list oparg),
    (forall v,
        FindPipeCommand_run context args kwargs opargs (OValue v) = Ok ONone)
    /\ (forall cols,
           FindPipeCommand_run context args kwargs opargs
                               (OTable (mkTable [] cols)) = Ok ONone)
    /\ (forall first rest cols prop v,
           primary_key (pipe_cwd context) = Some prop ->
           do_get prop first = Ok v ->
           FindPipeCommand_run context args kwargs opargs
                               (OTable (mkTable (first :: rest) cols))
           = Ok (OValue v)).
Proof.
  intros context args kwargs opargs. repeat split.
  intros first rest cols prop v Hpk Hget.
  unfold FindPipeCommand_run; simpl. rewrite Hpk; simpl. now rewrite Hget.
Qed.

(** C4. [select] raises its arity error whenever the number of arguments is
    not one; given one field name and a table, it returns a table with the
    single column [Result] whose rows are, one for each input row and in
    the same order, the value of that field in the row ([None] where the
    row lacks the field). *)
Theorem select_arity_and_projection :
  forall (context : Context) (kwargs : kwargs_t) (opargs : list oparg),
    (forall args input,
        length args <> 1 ->
        SelectPipeCommand_run context args kwargs opargs input
        = Raise ArityError)
    /\ (forall field t,
           exists rows,
             SelectPipeCommand_run context [VStr field] kwargs opargs
                                   (OTable t)
             = Ok (OTable (mkTable rows [mkColumn "Result" "result" None]))
             /\ rows = map (fun x => [("result", get_or_none x field)])
                           (data t)
             /\ length rows = length (data t)).
Proof.
  intros context kwargs opargs. split.
  - intros args input H. unfold SelectPipeCommand_run.
    destruct (Nat.eqb (length args) 1) eqn:E; [|reflexivity].
    apply Nat.eqb_eq in E. contradiction.
  - intros field t. eexists. split; [|split; [reflexivity|]].
    + unfold SelectPipeCommand_run; simpl.
      now rewrite select_rows_field.
    + apply length_map.
Qed.

(** C9. [select] given exactly one argument and an input that is not a
    table returns [None]: it neither raises nor builds a table. *)
Theorem select_non_table_returns_none :
  forall (context : Context) (args : args_t) (kwargs : kwargs_t)
         (opargs : list oparg) (v : pyval),
    length args = 1 ->
    SelectPipeCommand_run context args kwargs opargs (OValue v) = Ok ONone.
Proof.
  intros context args kwargs opargs v H. unfold SelectPipeCommand_run.
  now rewrite H.
Qed.

(** C6. The [run] of each of [search], [exclude], [sort], [limit],
    [older_than], [newer_than] and [tail] returns its input as it is, for
    every input and whatever the arguments: these stages act only through
    the query they serialize. *)
Theorem foldable_stages_run_is_identity :
  Forall
    (fun c =>
       forall (context : Context) (args : args_t) (kwargs : kwargs_t)
              (opargs : list oparg) (input : output),
         run c context args kwargs opargs input = Ok input)
    [SearchPipeCommand; ExcludePipeCommand; SortPipeCommand;
     LimitPipeCommand; OlderThanPipeCommand; NewerThanPipeCommand;
     TailPipeCommand].
Proof. repeat constructor. Qed.

End RunFacts.

(** ** [source] *)

Section SourceFacts.
Context {ext : Collaborators}.
Variables (World ast : Type).
Variable expanduser : string -> string.
Variable isfile : World -> string -> bool.
Variable open_read : World -> string -> result (list Byte.byte).
Variable decode_utf8 : list Byte.byte -> result string.
Variable parse : string -> string -> result ast.
Variable eval_block : ast -> World -> result unit * World.

Local Abbreviation source_file :=
  (source_file World ast expanduser isfile open_read decode_utf8 parse
               eval_block).
Local Abbreviation source_files :=
  (source_files World ast expanduser isfile open_read decode_utf8 parse
                eval_block).
Local Abbreviation SourceCommand_run :=
  (SourceCommand_run World ast expanduser isfile open_read decode_utf8 parse
                     eval_block).
Local Abbreviation sourced := (sourced expanduser).

(** One pass of the loop adds to the trace nothing (the file is missing),
    the opening alone (reading, decoding or parsing raised) or the opening
    and the evaluation; a pass that does not raise has done both. *)
Lemma source_file_trace arg s r s' :
  source_file arg s = (r, s') ->
  exists added,
    trace World s' = trace World s ++ added
    /\ (added = [] \/ added = [Opened (expanduser arg)] \/ added = sourced arg)
    /\ (is_ok r = true -> added = sourced arg).
Proof.
  unfold source_file.
  destruct (isfile (world World s) (expanduser arg)).
  - destruct (bind (open_read (world World s) (expanduser arg)) _)
      as [tree|e].
    + destruct (eval_block tree _) as [r0 w] eqn:Ev.
      intros H; injection H as <- <-; simpl.
      exists (sourced arg). rewrite <- app_assoc. auto.
    + intros H; injection H as <- <-; simpl.
      exists [Opened (expanduser arg)]. repeat split; auto.
      destruct e; discriminate.
  - intros H; injection H as <- <-.
    exists []. rewrite app_nil_r. repeat split; auto. discriminate.
Qed.

(** Files that all run leave their events in the order of the list. *)
Lemma source_files_trace args : forall s u s',
  source_files args s = (Ok u, s') ->
  trace World s' = trace World s ++ flat_map sourced args.
Proof.
  induction args as [|arg rest IH]; intros s u s' H; simpl in H.
  - injection H as <- <-. now rewrite app_nil_r.
  - destruct (source_file arg s) as [[u0|e] s1] eqn:E; [|discriminate].
    apply source_file_trace in E. destruct E as (added & Ht & _ & Hok).
    rewrite (IH _ _ _ H), Ht, (Hok eq_refl). simpl.
    now rewrite <- app_assoc.
Qed.

(** The loop ends at the first file that raises. *)
Lemma source_files_abort pre arg post : forall s u s1 e s2,
  source_files pre s = (Ok u, s1) ->
  source_file arg s1 = (Raise e, s2) ->
  source_files (pre ++ arg :: post) s = (Raise e, s2).
Proof.
  induction pre as [|a pre IH]; intros s u s1 e s2 Hpre Harg; simpl in *.
  - injection Hpre as <- <-. now rewrite Harg.
  - destruct (source_file a s) as [[u0|e0] s0]; [|discriminate].
    eapply IH; eassumption.
Qed.

(** The three ways a file fails: it is missing; what is read from it is
    not UTF-8; a command in it fails. *)
Lemma source_file_failures arg s :
  let file := expanduser arg in
  (isfile (world World s) file = false ->
   fst (source_file arg s)
   = Raise (CommandException (gettext ("File " ++ file ++ " does not exist."))))
  /\ (forall bytes msg,
         isfile (world World s) file = true ->
         open_read (world World s) file = Ok bytes ->
         decode_utf8 bytes = Raise (UnicodeDecodeError msg) ->
         fst (source_file arg s)
         = Raise (CommandException
                    (gettext ("Incorrect filetype, cannot parse file: "
                              ++ msg))))
  /\ (forall bytes text tree e w,
         isfile (world World s) file = true ->
         open_read (world World s) file = Ok bytes ->
         decode_utf8 bytes = Ok text ->
         parse text file = Ok tree ->
         eval_block tree (world World s) = (Raise e, w) ->
         is_ok (fst (source_file arg s)) = false).
Proof.
  intros file. unfold source_file. fold file. repeat split.
  - intros H. now rewrite H.
  - intros bytes msg H Hr Hd. rewrite H, Hr; simpl. now rewrite Hd.
  - intros bytes text tree e w H Hr Hd Hp He.
    rewrite H, Hr; simpl. rewrite Hd; simpl. rewrite Hp, He; simpl.
    now destruct e.
Qed.

(** C7. [source] takes the files in the order given and stops at the first
    one that fails. When the files [pre] run and the next file [arg] raises
    (it is missing, it cannot be read, decoded or parsed, or a command in
    it fails), the command ends with that exception in the state that file
    left, whatever files [post] follow; its trace holds, after what was
    there, the opening and evaluation of each file of [pre] in order, then
    at most the opening and the evaluation of [arg], and no event of a
    file of [post]. *)
Theorem source_aborts_at_first_failure :
  forall (pre post : list string) (arg : string)
         (s s1 s2 : source_state World) (e : exn),
    source_files pre s = (Ok tt, s1) ->
    source_file arg s1 = (Raise e, s2) ->
    SourceCommand_run (pre ++ arg :: post) s = (Raise e, s2)
    /\ exists added,
        trace World s2 = trace World s ++ flat_map sourced pre ++ added
        /\ (added = [] \/ added = [Opened (expanduser arg)]
            \/ added = sourced arg).
Proof.
  intros pre post arg s s1 s2 e Hpre Harg. split.
  - unfold SourceCommand_run.
    rewrite length_app; simpl. rewrite Nat.add_succ_r; simpl.
    eapply source_files_abort; eassumption.
  - apply source_file_trace in Harg. destruct Harg as (added & Ht & Hadded & _).
    exists added. split; [|exact Hadded].
    now rewrite Ht, (source_files_trace _ _ _ _ Hpre), <- app_assoc.
Qed.

End SourceFacts.

(** ** [search] against [exclude] *)

Section Complement.
Context {A : Type}.
Variables (f g : A -> bool).
Hypothesis g_is_not_f : forall x, g x = negb (f x).

Lemma filter_complement_perm l :
  Permutation (filter f l ++ filter g l) l.
Proof.
  induction l as [|x l IH]; simpl; [constructor|].
  rewrite g_is_not_f. destruct (f x); simpl.
  - now constructor.
  - symmetry. apply Permutation_cons_app. now symmetry.
Qed.

Lemma filter_complement_disjoint l x :
  In x (filter f l) -> ~ In x (filter g l).
Proof.
  intros Hf Hg. apply filter_In in Hf, Hg.
  destruct Hf as [_ Hf], Hg as [_ Hg].
  rewrite g_is_not_f, Hf in Hg. discriminate.
Qed.

End Complement.

Section DataSourceFacts.
Context {ext : Collaborators}.
Variable op_holds : string -> pyval -> pyval -> bool.
Variable other_logic : string -> list bool -> bool.

Local Abbreviation holds := (holds op_holds other_logic).
Local Abbreviation matches := (matches op_holds other_logic).
Local Abbreviation apply_query := (apply_query op_holds other_logic).

Lemma holds_nor_single r t :
  holds r (Logic "nor" [t]) = negb (holds r t).
Proof. simpl. now rewrite orb_false_r. Qed.

(** C2. For a comparison [key == v] that maps to a triple, [search] and
    [exclude] serialize queries that are complementary under the data
    source's reading: on every row exactly one of the two holds, so the
    rows each selects from the same input are disjoint and together are
    the input. *)
Theorem search_and_exclude_partition :
  forall (context : Context) (key : string) (v : pyval)
         (ts : list filter_item) (rows : list row),
    map_opargs [(key, "==", v)] context = Ok ts ->
    exists qs qe,
      SearchPipeCommand_serialize_filter context [] [] [(key, "==", v)]
      = Ok qs
      /\ ExcludePipeCommand_serialize_filter context [] [] [(key, "==", v)]
         = Ok qe
      /\ (forall r, xorb (matches qs r) (matches qe r) = true)
      /\ Permutation (apply_query qs rows ++ apply_query qe rows) rows
      /\ (forall r, In r (apply_query qs rows) -> ~ In r (apply_query qe rows)).
Proof.
  intros context key v ts rows H.
  unfold SearchPipeCommand_serialize_filter,
    ExcludePipeCommand_serialize_filter.
  rewrite H; simpl.
  apply map_opargs_loop_app in H. destruct H as (ts' & -> & H).
  inversion H as [|a t l l' Ht Hl]; subst. inversion Hl; subst. clear H Hl.
  do 2 eexists. split; [reflexivity|]. split; [reflexivity|].
  assert (Hneg : forall r,
             matches (mkQuery [Logic "nor" [t]]) r
             = negb (matches (mkQuery [t]) r)).
  { intros r. unfold matches. cbn [q_filter forallb].
    rewrite holds_nor_single. now rewrite !andb_true_r. }
  cbn [app fold_left]. split; [|split].
  - intros r. rewrite Hneg. now destruct (matches _ r).
  - now apply filter_complement_perm.
  - intros r. now apply filter_complement_disjoint.
Qed.

End DataSourceFacts.

(** * More properties *)

(** ** Looking up and deleting in dictionaries *)

Section DictLookup.
Context {V : Type}.
Implicit Types (d : dict V) (k : string) (v : V).

Lemma dict_get_set d k v k' :
  dict_get (dict_set d k v) k'
  = if String.eqb k k' then Some v else dict_get d k'.
Proof.
  induction d as [|[k0 v0] d IH]; simpl.
  - reflexivity.
  - destruct (String.eqb k0 k) eqn:E; simpl.
    + apply String.eqb_eq in E. subst k0.
      now destruct (String.eqb k k').
    + rewrite IH. destruct (String.eqb k0 k') eqn:E'; [|reflexivity].
      apply String.eqb_eq in E'. subst k0.
      now rewrite String.eqb_sym, E.
Qed.

Lemma dict_get_del d k k' :
  dict_get (dict_del d k) k'
  = if String.eqb k k' then None else dict_get d k'.
Proof.
  unfold dict_del.
  induction d as [|[k0 v0] d IH]; simpl.
  - now destruct (String.eqb k k').
  - destruct (String.eqb k0 k) eqn:E; simpl.
    + rewrite IH. apply String.eqb_eq in E. subst k0.
      now destruct (String.eqb k k').
    + rewrite IH. destruct (String.eqb k0 k') eqn:E'; [|reflexivity].
      apply String.eqb_eq in E'. subst k0.
      now rewrite String.eqb_sym, E.
Qed.

Lemma dict_get_none_iff d k : dict_get d k = None <-> ~ In k (keys d).
Proof.
  induction d as [|[k0 v0] d IH]; simpl; [tauto|].
  destruct (String.eqb k0 k) eqn:E.
  - apply String.eqb_eq in E. split; [discriminate|]. intros H. tauto.
  - apply String.eqb_neq in E. rewrite IH. tauto.
Qed.

Lemma keys_dict_set d k v :
  keys (dict_set d k v) = if dict_mem d k then keys d else keys d ++ [k].
Proof.
  unfold dict_mem.
  induction d as [|[k0 v0] d IH]; simpl; [reflexivity|].
  destruct (String.eqb k0 k) eqn:E; simpl.
  - apply String.eqb_eq in E. now subst k0.
  - rewrite IH. now destruct (dict_get d k).
Qed.

Lemma keys_dict_del d k :
  keys (dict_del d k) = filter (fun k' => negb (String.eqb k' k)) (keys d).
Proof.
  unfold dict_del, keys.
  induction d as [|[k0 v0] d IH]; simpl; [reflexivity|].
  destruct (String.eqb k0 k); simpl; now rewrite IH.
Qed.

Lemma dict_del_absent d k : ~ In k (keys d) -> dict_del d k = d.
Proof.
  unfold dict_del.
  induction d as [|[k0 v0] d IH]; simpl; [reflexivity|]. intros H.
  destruct (String.eqb k0 k) eqn:E.
  - apply String.eqb_eq in E. tauto.
  - simpl. rewrite IH; tauto.
Qed.

Lemma dict_del_set_absent d k v :
  ~ In k (keys d) -> dict_del (dict_set d k v) k = d.
Proof.
  unfold dict_del.
  induction d as [|[k0 v0] d IH]; simpl; intros H.
  - now rewrite String.eqb_refl.
  - destruct (String.eqb k0 k) eqn:E.
    + apply String.eqb_eq in E. tauto.
    + simpl. rewrite E. simpl. rewrite IH; tauto.
Qed.

Lemma dict_set_NoDup d k v : NoDup (keys d) -> NoDup (keys (dict_set d k v)).
Proof.
  intros H. rewrite keys_dict_set. unfold dict_mem.
  destruct (dict_get d k) eqn:E; [exact H|].
  apply dict_get_none_iff in E.
  apply NoDup_rev in H. rewrite <- (rev_involutive (keys d ++ [k])).
  apply NoDup_rev. rewrite rev_app_distr. simpl. constructor; [|exact H].
  now rewrite <- in_rev.
Qed.

Lemma dict_del_NoDup d k : NoDup (keys d) -> NoDup (keys (dict_del d k)).
Proof. intros H. rewrite keys_dict_del. now apply NoDup_filter. Qed.

End DictLookup.

(** ** [alias] and [unalias] together *)

Lemma update_aliases_lookup kwargs : forall a k,
  dict_get (update_aliases a kwargs) k
  = match dict_get (rev kwargs) k with
    | Some v => Some v
    | None => dict_get a k
    end.
Proof.
  induction kwargs as [|[name value] kwargs IH] using rev_ind; intros a k.
  - reflexivity.
  - rewrite update_aliases_snoc, rev_app_distr, dict_get_set. simpl.
    destruct (String.eqb name k); [reflexivity|apply IH].
Qed.

Lemma update_aliases_NoDup kwargs : forall a,
  NoDup (keys a) -> NoDup (keys (update_aliases a kwargs)).
Proof.
  induction kwargs as [|[name value] kwargs IH]; intros a H; simpl; auto.
  apply IH. now apply dict_set_NoDup.
Qed.

Lemma unalias_loop_NoDup args : forall a,
  NoDup (keys a) -> NoDup (keys (snd (unalias_loop args a))).
Proof.
  induction args as [|v args IH]; intros a H; simpl; auto.
  destruct v; simpl; auto. apply IH.
  destruct (dict_mem a s); auto. now apply dict_del_NoDup.
Qed.

Lemma unalias_loop_ok args : forall a,
  Forall (fun v => isinstance_list v = false) args ->
  fst (unalias_loop args a) = Ok tt.
Proof.
  induction args as [|v args IH]; intros a H; simpl; auto.
  inversion H; subst. destruct v; simpl in *; auto. discriminate.
Qed.

Lemma dict_del_if_mem_lookup (a : dict pyval) name k :
  dict_get (if dict_mem a name then dict_del a name else a) k
  = if String.eqb name k then None else dict_get a k.
Proof.
  unfold dict_mem. destruct (dict_get a name) eqn:E.
  - apply dict_get_del.
  - destruct (String.eqb name k) eqn:E'; [|reflexivity].
    apply String.eqb_eq in E'. now subst k.
Qed.

Lemma unalias_loop_lookup args : forall a k,
  Forall (fun v => isinstance_list v = false) args ->
  dict_get (snd (unalias_loop args a)) k
  = if existsb (py_eq (VStr k)) args then None else dict_get a k.
Proof.
  induction args as [|v args IH]; intros a k H; simpl; [reflexivity|].
  inversion H as [|? ? Hv Hargs]; subst.
  destruct v; simpl in *; try discriminate; try (now apply IH).
  rewrite IH by assumption. rewrite dict_del_if_mem_lookup.
  rewrite (String.eqb_sym k s).
  destruct (String.eqb s k); simpl; [|reflexivity].
  now destruct (existsb _ args).
Qed.

(** X8. After [alias name=value ...] every name given is bound to the value
    given last for it, and every other name is bound as it was. *)
Theorem alias_binds_names :
  forall (context : Context) (args : args_t) (kwargs : kwargs_t)
         (opargs : list oparg) (k : string),
    kwargs <> [] ->
    dict_get (aliases (ml (snd (AliasCommand_run context args kwargs opargs))))
             k
    = match dict_get (rev kwargs) k with
      | Some v => Some v
      | None => dict_get (aliases (ml context)) k
      end.
Proof.
  intros context args kwargs opargs k H.
  destruct kwargs as [|nv kwargs]; [congruence|].
  cbn -[update_aliases rev]. apply update_aliases_lookup.
Qed.

(** X9. [alias] and [unalias] keep the alias table free of repeated names, and
    neither touches the navigation path. *)
Theorem alias_table_stays_a_dict :
  forall (context : Context) (args : args_t) (kwargs : kwargs_t)
         (opargs : list oparg),
    NoDup (keys (aliases (ml context))) ->
    let after_alias := snd (AliasCommand_run context args kwargs opargs) in
    let after_unalias := snd (UnaliasCommand_run context args kwargs opargs) in
    NoDup (keys (aliases (ml after_alias)))
    /\ NoDup (keys (aliases (ml after_unalias)))
    /\ path (ml after_alias) = path (ml context)
    /\ path (ml after_unalias) = path (ml context).
Proof.
  intros context args kwargs opargs H. cbv zeta. repeat split.
  - destruct kwargs as [|nv kwargs]; [exact H|].
    cbn -[update_aliases]. now apply update_aliases_NoDup.
  - unfold UnaliasCommand_run.
    pose proof (unalias_loop_NoDup args _ H) as H'.
    destruct (unalias_loop args (aliases (ml context))). exact H'.
  - now destruct kwargs.
  - unfold UnaliasCommand_run.
    now destruct (unalias_loop args (aliases (ml context))).
Qed.

(** X10. [unalias] with arguments that can be hashed returns [None]; afterwards
    no string among the arguments is an alias, and every other name is
    bound as it was. *)
Theorem unalias_removes_names :
  forall (context : Context) (args : args_t) (kwargs : kwargs_t)
         (opargs : list oparg),
    Forall (fun v => isinstance_list v = false) args ->
    let after := UnaliasCommand_run context args kwargs opargs in
    fst after = Ok ONone
    /\ (forall name,
           In (VStr name) args ->
           dict_get (aliases (ml (snd after))) name = None)
    /\ (forall k,
           ~ In (VStr k) args ->
           dict_get (aliases (ml (snd after))) k
           = dict_get (aliases (ml context)) k).
Proof.
  intros context args kwargs opargs H. cbv zeta.
  unfold UnaliasCommand_run.
  pose proof (unalias_loop_ok args (aliases (ml context)) H) as Hok.
  pose proof (fun k => unalias_loop_lookup args (aliases (ml context)) k H)
    as Hget.
  destruct (unalias_loop args (aliases (ml context))) as [r a].
  cbn [fst snd] in *. subst r. split; [reflexivity|].
  cbn [ml aliases set_aliases]. split.
  - intros name Hin. rewrite Hget.
    replace (existsb (py_eq (VStr name)) args) with true; [reflexivity|].
    symmetry. apply existsb_exists. exists (VStr name). split; [exact Hin|].
    simpl. apply String.eqb_refl.
  - intros k Hk. rewrite Hget.
    destruct (existsb (py_eq (VStr k)) args) eqn:E; [|reflexivity].
    apply existsb_exists in E. destruct E as (v & Hin & Hv).
    destruct v; simpl in Hv; try discriminate.
    apply String.eqb_eq in Hv. subst s. contradiction.
Qed.

(** X11. [unalias name] undoes [alias name=value] when the name was free: the
    alias table is again what it was, entry for entry. *)
Theorem unalias_undoes_alias :
  forall (context : Context) (name : string) (value : pyval),
    ~ In name (keys (aliases (ml context))) ->
    let aliased := snd (AliasCommand_run context [] [(name, value)] []) in
    aliases (ml (snd (UnaliasCommand_run aliased [VStr name] [] [])))
    = aliases (ml context).
Proof.
  intros context name value H. cbv zeta. cbn.
  unfold dict_mem. rewrite dict_get_set, String.eqb_refl. cbn.
  now apply dict_del_set_absent.
Qed.

(** ** More on the pipe stages *)

Section MoreFilterFacts.
Context {ext : Collaborators}.

(** X1. [search] and [exclude] accept the same calls: where one raises, the
    other raises the same exception, and where [search] gives a filter,
    [exclude] gives the same triples, each one inside a ['nor']. *)
Theorem exclude_is_search_negated :
  forall (context : Context) (args : args_t) (kwargs : kwargs_t)
         (opargs : list oparg),
    match SearchPipeCommand_serialize_filter context args kwargs opargs with
    | Ok q =>
        ExcludePipeCommand_serialize_filter context args kwargs opargs
        = Ok (mkQuery (map (fun t => Logic "nor" [t]) (q_filter q)))
    | Raise e =>
        ExcludePipeCommand_serialize_filter context args kwargs opargs
        = Raise e
    end.
Proof.
  intros context args kwargs opargs.
  unfold SearchPipeCommand_serialize_filter,
    ExcludePipeCommand_serialize_filter.
  destruct (map_opargs opargs context) as [ts|e]; simpl; [|reflexivity].
  destruct (Nat.ltb 0 (length kwargs)); [reflexivity|].
  destruct (Nat.ltb 0 (length args)); [reflexivity|].
  simpl. now rewrite nor_loop.
Qed.

(** X2. What [map_opargs] returns has one triple for each operator-arg, in the
    order given and with the operator as it was written; it never holds a
    combinator. *)
Theorem map_opargs_keeps_operators :
  forall (context : Context) (opargs : list oparg) (ts : list filter_item),
    map_opargs opargs context = Ok ts ->
    length ts = length opargs
    /\ Forall2 (fun a t =>
                  exists property value,
                    t = Triple property (snd (fst a)) value)
               opargs ts.
Proof.
  intros context opargs ts H.
  apply map_opargs_loop_app in H. destruct H as (ts' & -> & H). simpl.
  split.
  - symmetry. eapply Forall2_length; eassumption.
  - induction H as [|[[k o] v] t l l' Ht Hl IH]; constructor; [|exact IH].
    unfold map_oparg in Ht. simpl.
    destruct (has_property (pipe_cwd context) k); [|discriminate].
    destruct (get_mapping (pipe_cwd context) k) as [m|]; [|discriminate].
    simpl in Ht.
    destruct (read_value v (pm_type m)) as [v'|]; [|discriminate].
    injection Ht as <-. eauto.
Qed.

(** X3. [limit] takes exactly one argument, an integer (a boolean counts as
    one), and hands it on as the [limit] parameter; every other argument
    list is refused. *)
Theorem limit_takes_one_integer :
  forall (context : Context) (args : args_t) (kwargs : kwargs_t)
         (opargs : list oparg) (q : params_query),
    LimitPipeCommand_serialize_filter context args kwargs opargs = Ok q
    <-> exists n,
        args = [n] /\ isinstance_int n = true
        /\ q = mkParams [("limit", n)].
Proof.
  intros context args kwargs opargs q.
  unfold LimitPipeCommand_serialize_filter. split.
  - destruct args as [|n [|m args]]; simpl; try discriminate.
    + destruct (isinstance_int n) eqn:E; simpl; [|discriminate].
      intros H. injection H as <-. eauto.
    + destruct (isinstance_int n); discriminate.
  - intros (n & -> & Hn & ->). simpl. now rewrite Hn.
Qed.

(** X4. [tail] accepts what [limit] accepts and refuses what it refuses, with
    the same exception; its parameters are [limit]'s, together with the
    descending sort on [timestamp] and [reverse]. *)
Theorem tail_agrees_with_limit :
  forall (context : Context) (args : args_t) (kwargs : kwargs_t)
         (opargs : list oparg),
    match LimitPipeCommand_serialize_filter context args kwargs opargs with
    | Ok q =>
        TailPipeCommand_serialize_filter context args kwargs opargs
        = Ok (mkParams (("sort", VList [VStr "-timestamp"])
                        :: q_params q ++ [("reverse", VBool true)]))
    | Raise e =>
        TailPipeCommand_serialize_filter context args kwargs opargs = Raise e
    end.
Proof.
  intros context args kwargs opargs.
  unfold LimitPipeCommand_serialize_filter, TailPipeCommand_serialize_filter.
  destruct (Nat.eqb (length args) 0); [reflexivity|].
  destruct (negb (isinstance_int (nth 0 args VNone)) || Nat.ltb 1 (length args));
    reflexivity.
Qed.

(** X5. [find] never lets [StopIteration] or [KeyError] out, and what it
    returns is never a table. *)
Theorem find_contains_lookup_errors :
  forall (context : Context) (args : args_t) (kwargs : kwargs_t)
         (opargs : list oparg) (input : output),
    match FindPipeCommand_run context args kwargs opargs input with
    | Ok (OValue _) => True
    | Ok (OTable _) => False
    | Raise e => is_StopIteration_or_KeyError e = false
    end.
Proof.
  intros context args kwargs opargs input.
  unfold FindPipeCommand_run.
  destruct input as [t|v]; simpl; [|exact I].
  destruct (data t) as [|first rest]; simpl; [exact I|].
  destruct (call_do_get (primary_key (pipe_cwd context)) first) as [v|e];
    simpl; [exact I|].
  destruct (is_StopIteration_or_KeyError e) eqn:E; [exact I|exact E].
Qed.

(** X6. The outcome of [select] on a table can be selected from again: the
    field [result] gives it back unchanged. *)
Theorem select_result_after_select :
  forall (context : Context) (kwargs kwargs' : kwargs_t)
         (opargs opargs' : list oparg) (field : pyval) (t : Table)
         (out : output),
    SelectPipeCommand_run context [field] kwargs opargs (OTable t) = Ok out ->
    SelectPipeCommand_run context [VStr "result"] kwargs' opargs' out
    = Ok out.
Proof.
  intros context kwargs kwargs' opargs opargs' field t out.
  unfold SelectPipeCommand_run; simpl.
  destruct (select_rows field (data t)) as [rows|e] eqn:E; [|discriminate].
  simpl. intros H. injection H as <-. simpl.
  rewrite select_rows_field.
  assert (Hrows : map (fun x => [("result", get_or_none x "result")]) rows
                  = rows).
  { clear - E. revert rows E.
    induction (data t) as [|x l IH]; intros rows E; simpl in E.
    - injection E as <-. reflexivity.
    - destruct (row_get x field) as [v|]; [|discriminate]. simpl in E.
      destruct (select_rows field l) as [rows'|]; [|discriminate].
      simpl in E. injection E as <-. simpl. f_equal. now apply IH. }
  now rewrite Hrows.
Qed.

End MoreFilterFacts.

Section MoreSourceFacts.
Context {ext : Collaborators}.
Variables (World ast : Type).
Variable expanduser : string -> string.
Variable isfile : World -> string -> bool.
Variable open_read : World -> string -> result (list Byte.byte).
Variable decode_utf8 : list Byte.byte -> result string.
Variable parse : string -> string -> result ast.
Variable eval_block : ast -> World -> result unit * World.

Local Abbreviation SourceCommand_run :=
  (SourceCommand_run World ast expanduser isfile open_read decode_utf8 parse
                     eval_block).
Local Abbreviation sourced := (sourced expanduser).

(** X7. [source] returns without raising only when it was given a file and
    every file given was opened and evaluated, once each and in the order
    given. *)
Theorem source_returns_after_all_files :
  forall (args : list string) (s s' : source_state World) (u : unit),
    SourceCommand_run args s = (Ok u, s') ->
    args <> []
    /\ trace World s' = trace World s ++ flat_map sourced args.
Proof.
  intros args s s' u. unfold SourceCommand_run.
  destruct args as [|arg rest]; [discriminate|].
  cbn [length Nat.eqb]. intros H. split; [discriminate|].
  eapply source_files_trace; eassumption.
Qed.

End MoreSourceFacts.

(** ** [echo] *)

Section EchoFacts.
Context {ext : Collaborators}.

Lemma append_assoc (a b c : string) :
  ((a ++ b) ++ c)%string = (a ++ b ++ c)%string.
Proof. induction a as [|x a IH]; simpl; [reflexivity|now rewrite IH]. Qed.

Lemma concat_cons sep s x l :
  String.concat sep ((s ++ sep ++ x)%string :: l)
  = (s ++ sep ++ String.concat sep (x :: l))%string.
Proof.
  destruct l as [|y l]; simpl; [reflexivity|].
  now rewrite !append_assoc.
Qed.

Lemma set_last_single_tail (v x : pyval) tl :
  tl <> [] -> set_last (v :: tl) x = v :: set_last tl x.
Proof. destruct tl; [congruence|reflexivity]. Qed.

Lemma set_last_snoc (l : list pyval) y x : set_last (l ++ [y]) x = l ++ [x].
Proof.
  induction l as [|z l IH]; simpl; [reflexivity|].
  rewrite IH. destruct (l ++ [y]) eqn:E; [|reflexivity].
  now destruct l.
Qed.

Lemma set_last_cons_snoc (v : pyval) l y x :
  set_last (v :: l ++ [y]) x = v :: l ++ [x].
Proof. exact (set_last_snoc (v :: l) y x). Qed.

(** Once a text has been started, scalars are added to it one by one. *)
Lemma echo_loop_scalars rest : forall prev acc,
  isinstance_list prev = false ->
  Forall (fun v => isinstance_list v = false) rest ->
  echo_loop (Some prev) rest [VStr acc]
  = Ok [VStr (fold_left (fun a v => (a ++ " " ++ str_scalar v)%string)
                        rest acc)].
Proof.
  induction rest as [|item rest IH]; intros prev acc Hprev H; simpl;
    [reflexivity|].
  inversion H as [|? ? Hitem Hrest]; subst.
  unfold echo_step. rewrite Hprev.
  destruct item; simpl in *; try discriminate; now rewrite IH.
Qed.

Lemma fold_concat rest : forall acc,
  fold_left (fun a v => (a ++ " " ++ str_scalar v)%string) rest acc
  = String.concat " " (acc :: map str_scalar rest).
Proof.
  induction rest as [|v rest IH]; intros acc; [reflexivity|].
  cbn [fold_left map]. rewrite IH.
  now rewrite concat_cons.
Qed.

(** X12. [echo] of a string followed by strings, numbers, booleans or [None]
    returns them as text with one blank between them; with no argument it
    returns the empty string. *)
Theorem echo_joins_scalars :
  forall (context : Context) (kwargs : kwargs_t) (opargs : list oparg),
    EchoCommand_run context [] kwargs opargs = Ok (OValue (VStr ""))
    /\ forall (s : string) (rest : args_t),
        Forall (fun v => isinstance_list v = false) rest ->
        EchoCommand_run context (VStr s :: rest) kwargs opargs
        = Ok (OValue (VStr (String.concat " " (s :: map str_scalar rest)))).
Proof.
  intros context kwargs opargs. split; [reflexivity|].
  intros s rest H. unfold EchoCommand_run. cbn [length Nat.eqb echo_loop].
  unfold echo_step at 1. cbn [app bind].
  rewrite echo_loop_scalars by (auto; reflexivity).
  unfold join. cbn. now rewrite fold_concat.
Qed.

Definition is_TypeError (e : exn) : bool :=
  match e with
  | PyError cls _ => String.eqb cls "TypeError"
  | _ => false
  end.

Lemma join_raises_TypeError sep items e :
  join sep items = Raise e -> is_TypeError e = true.
Proof.
  unfold join. generalize 0.
  induction items as [|v items IH]; intros n; simpl; [discriminate|].
  destruct v; simpl; try (intros H; injection H as <-; reflexivity).
  specialize (IH (S n)).
  destruct (join_from (S n) items); simpl in *; [discriminate|exact IH].
Qed.

Lemma join_head_not_str sep v items :
  match v with VStr _ => False | _ => True end ->
  exists e, join sep (v :: items) = Raise e /\ is_TypeError e = true.
Proof.
  intros H. unfold join. destruct v; try contradiction; simpl; eauto.
Qed.

(** A turn of the loop does not touch an item that is not a string at the
    head of [echo_seq], unless to raise [TypeError]. *)
Lemma echo_step_keeps_head v prev item tl :
  match v with VStr _ => False | _ => True end ->
  match echo_step prev item (v :: tl) with
  | Ok echo_seq => exists tl', echo_seq = v :: tl'
  | Raise e => is_TypeError e = true
  end.
Proof.
  intros Hv. unfold echo_step.
  destruct item as [| s | z | b | items].
  5: { destruct (join ", " items) as [s|e] eqn:E; cbn [bind].
       - now exists (tl ++ [VStr s]).
       - eapply join_raises_TypeError; eassumption. }
  all: destruct (match prev with Some p => isinstance_list p | None => true end);
    [eexists; reflexivity|].
  all: destruct tl as [|y tl _] using rev_ind.
  all: try (cbn [rev app];
            match goal with
            | |- context [join " " (?h :: ?l)] =>
                destruct (join_head_not_str " " h l Hv) as (e & -> & He)
            end; exact He).
  all: rewrite app_comm_cons, rev_app_distr; cbn [rev app];
    match goal with
    | |- context [join " " ?l] => destruct (join " " l) as [s'|e] eqn:E
    end; cbn [bind];
    [ rewrite set_last_cons_snoc; now exists (tl ++ [VStr s'])
    | eapply join_raises_TypeError; eassumption ].
Qed.

Lemma echo_loop_keeps_head v args : forall prev tl,
  match v with VStr _ => False | _ => True end ->
  match echo_loop prev args (v :: tl) with
  | Ok echo_seq => exists tl', echo_seq = v :: tl'
  | Raise e => is_TypeError e = true
  end.
Proof.
  intros prev tl Hv. revert prev tl.
  induction args as [|item args IH]; intros prev tl; simpl; [eauto|].
  pose proof (echo_step_keeps_head v prev item tl Hv) as H.
  destruct (echo_step prev item (v :: tl)) as [echo_seq|e]; cbn [bind].
  - destruct H as (tl' & ->). apply IH.
  - exact H.
Qed.

(** X13. [echo] whose first argument is a number, a boolean or [None] raises
    [TypeError], whatever follows: only a string can start the text. *)
Theorem echo_needs_a_leading_string :
  forall (context : Context) (kwargs : kwargs_t) (opargs : list oparg)
         (v : pyval) (rest : args_t),
    match v with VStr _ | VList _ => False | _ => True end ->
    exists msg,
      EchoCommand_run context (v :: rest) kwargs opargs
      = Raise (TypeError msg).
Proof.
  intros context kwargs opargs v rest Hv.
  assert (Hns : match v with VStr _ => False | _ => True end)
    by (destruct v; auto).
  assert (HT : forall e, is_TypeError e = true -> exists msg, e = TypeError msg).
  { intros [| | | |cls msg]; simpl; try discriminate.
    intros H. apply String.eqb_eq in H. subst cls. now exists msg. }
  unfold EchoCommand_run. cbn [length Nat.eqb echo_loop].
  assert (Hstep : echo_step None v [] = Ok [v]).
  { unfold echo_step. destruct v; try contradiction; reflexivity. }
  rewrite Hstep. cbn [bind].
  pose proof (echo_loop_keeps_head v rest (Some v) [] Hns) as H.
  destruct (echo_loop (Some v) rest [v]) as [echo_seq|e]; cbn [bind].
  - destruct H as (tl' & ->).
    destruct (join_head_not_str " " v tl' Hns) as (e & -> & He).
    cbn [bind]. destruct (HT e He) as (msg & ->). now exists msg.
  - destruct (HT e H) as (msg & ->). now exists msg.
Qed.

End EchoFacts.

(** ** [cd] *)

Lemma replace_char_removes a b s :
  a <> b -> contains (replace_char a b s) a = false.
Proof.
  intros H. induction s as [|c s IH]; simpl; [reflexivity|].
  rewrite IH, orb_false_r.
  destruct (Ascii.eqb c a) eqn:E; [|exact E].
  apply Ascii.eqb_neq. congruence.
Qed.

Lemma replace_char_absent a b s :
  contains s a = false -> replace_char a b s = s.
Proof.
  induction s as [|c s IH]; simpl; [reflexivity|].
  intros H. apply orb_false_iff in H. destruct H as [Hc Hs].
  now rewrite Hc, IH.
Qed.

Lemma lstrip_contains s c :
  contains s c = false -> contains (lstrip s) c = false.
Proof.
  induction s as [|a s IH]; simpl; [reflexivity|].
  intros H. destruct (isspace a); [|exact H].
  apply orb_false_iff in H. now apply IH.
Qed.

Lemma rstrip_contains s c :
  contains s c = false -> contains (rstrip s) c = false.
Proof.
  induction s as [|a s IH]; simpl; [reflexivity|].
  intros H. apply orb_false_iff in H. destruct H as [Ha Hs].
  specialize (IH Hs).
  destruct (rstrip s); [destruct (isspace a)|]; simpl in *;
    rewrite ?Ha, ?IH; reflexivity.
Qed.

Lemma rstrip_idempotent s : rstrip (rstrip s) = rstrip s.
Proof.
  induction s as [|a s IH]; simpl; [reflexivity|].
  destruct (rstrip s) as [|b r] eqn:E.
  - destruct (isspace a) eqn:Ha; simpl; [reflexivity|now rewrite Ha].
  - change (rstrip (String a (String b r)))
      with (match rstrip (String b r) with
            | EmptyString =>
                if isspace a then EmptyString else String a EmptyString
            | r0 => String a r0
            end).
    now rewrite IH.
Qed.

(** A text that does not begin with a blank still does not after
    [rstrip], and [lstrip] leaves it alone. *)
Definition starts_clean (s : string) : bool :=
  match s with
  | EmptyString => true
  | String c _ => negb (isspace c)
  end.

Lemma lstrip_starts_clean s : starts_clean (lstrip s) = true.
Proof.
  induction s as [|a s IH]; simpl; [reflexivity|].
  destruct (isspace a) eqn:E; [exact IH|]. simpl. now rewrite E.
Qed.

Lemma rstrip_starts_clean s :
  starts_clean s = true -> starts_clean (rstrip s) = true.
Proof.
  destruct s as [|a s]; simpl; [reflexivity|]. intros H.
  destruct (rstrip s); [|exact H].
  apply negb_true_iff in H. rewrite H. simpl. now rewrite H.
Qed.

Lemma lstrip_clean s : starts_clean s = true -> lstrip s = s.
Proof.
  destruct s as [|a s]; simpl; [reflexivity|]. intros H.
  apply negb_true_iff in H. now rewrite H.
Qed.

Lemma strip_idempotent s : strip (strip s) = strip s.
Proof.
  unfold strip.
  rewrite (lstrip_clean (rstrip (lstrip s)))
    by apply rstrip_starts_clean, lstrip_starts_clean.
  apply rstrip_idempotent.
Qed.

Lemma strip_contains s c : contains s c = false -> contains (strip s) c = false.
Proof. intros H. now apply rstrip_contains, lstrip_contains. Qed.

(** A level of a path, as these facts take it: ASCII text, not empty,
    without blanks and without [/]. *)
Definition plain_char (c : ascii) : bool :=
  Nat.ltb (nat_of_ascii c) 128 && negb (isspace c) && negb (Ascii.eqb c "/").

Fixpoint plain (s : string) : bool :=
  match s with
  | EmptyString => true
  | String c s' => plain_char c && plain s'
  end.

Definition level (s : string) : Prop := plain s = true /\ s <> EmptyString.

Fixpoint ends_clean (s : string) : bool :=
  match s with
  | EmptyString => true
  | String c EmptyString => negb (isspace c)
  | String _ s' => ends_clean s'
  end.

Lemma plain_char_spec c :
  plain_char c = true -> isspace c = false /\ Ascii.eqb c "/" = false.
Proof.
  unfold plain_char. intros H.
  apply andb_true_iff in H. destruct H as [H Hslash].
  apply andb_true_iff in H. destruct H as [_ Hspace].
  now apply negb_true_iff in Hslash, Hspace.
Qed.

Lemma plain_no_slash s : plain s = true -> contains s "/" = false.
Proof.
  induction s as [|c s IH]; simpl; [reflexivity|]. intros H.
  apply andb_true_iff in H. destruct H as [Hc Hs].
  destruct (plain_char_spec c Hc) as [_ ->]. now apply IH.
Qed.

Lemma plain_starts_clean s : plain s = true -> starts_clean s = true.
Proof.
  destruct s as [|c s]; simpl; [reflexivity|]. intros H.
  apply andb_true_iff in H. destruct H as [Hc _].
  destruct (plain_char_spec c Hc) as [-> _]. reflexivity.
Qed.

Lemma plain_ends_clean s : plain s = true -> ends_clean s = true.
Proof.
  induction s as [|c s IH]; [reflexivity|]. intros H. simpl in H.
  apply andb_true_iff in H. destruct H as [Hc Hs].
  destruct (plain_char_spec c Hc) as [Hspace _].
  destruct s as [|d s]; [simpl; now rewrite Hspace|].
  exact (IH Hs).
Qed.

Lemma ends_clean_app s t :
  t <> EmptyString -> ends_clean t = true -> ends_clean (s ++ t) = true.
Proof.
  intros Hne Ht. induction s as [|c s IH]; [exact Ht|].
  cbn [append]. destruct (s ++ t)%string eqn:E.
  - destruct s; [cbn in E; congruence|discriminate].
  - exact IH.
Qed.

Lemma rstrip_clean s : ends_clean s = true -> rstrip s = s.
Proof.
  induction s as [|c s IH]; [reflexivity|]. intros H.
  destruct s as [|d s].
  - simpl in *. apply negb_true_iff in H. now rewrite H.
  - change (rstrip (String c (String d s)))
      with (match rstrip (String d s) with
            | EmptyString =>
                if isspace c then EmptyString else String c EmptyString
            | r0 => String c r0
            end).
    now rewrite (IH H).
Qed.

Lemma strip_clean s :
  starts_clean s = true -> ends_clean s = true -> strip s = s.
Proof.
  intros Hs He. unfold strip. rewrite (lstrip_clean s Hs).
  now apply rstrip_clean.
Qed.

Lemma replace_char_app a b s t :
  replace_char a b (s ++ t) = (replace_char a b s ++ replace_char a b t)%string.
Proof. induction s as [|c s IH]; simpl; [reflexivity|now rewrite IH]. Qed.

Lemma concat_String sep c s l :
  String.concat sep (String c s :: l) = String c (String.concat sep (s :: l)).
Proof. now destruct l. Qed.

Lemma concat_levels_not_empty sep l ls :
  l <> EmptyString -> String.concat sep (l :: ls) <> EmptyString.
Proof.
  destruct l as [|c l]; [congruence|]. intros _.
  rewrite concat_String. discriminate.
Qed.

(** Between plain levels, [replace] turns every [/] into a blank. *)
Lemma replace_between_levels ls : forall l,
  plain l = true -> Forall level ls ->
  replace_char "/" " " (String.concat "/" (l :: ls))
  = String.concat " " (l :: ls).
Proof.
  induction ls as [|l2 ls IH]; intros l Hl H.
  - cbn [String.concat]. now apply replace_char_absent, plain_no_slash.
  - inversion H as [|? ? [Hl2 _] Hls]; subst.
    change (String.concat "/" (l :: l2 :: ls))
      with (l ++ "/" ++ String.concat "/" (l2 :: ls))%string.
    change (String.concat " " (l :: l2 :: ls))
      with (l ++ " " ++ String.concat " " (l2 :: ls))%string.
    rewrite !replace_char_app, (IH l2 Hl2 Hls).
    now rewrite (replace_char_absent "/" " " l (plain_no_slash l Hl)).
Qed.

Lemma levels_start_clean l ls :
  level l -> starts_clean (String.concat " " (l :: ls)) = true.
Proof.
  intros [Hl Hne]. pose proof (plain_starts_clean l Hl) as H.
  destruct l as [|c l]; [congruence|now rewrite concat_String].
Qed.

Lemma levels_end_clean ls : forall l,
  plain l = true -> Forall level ls ->
  ends_clean (String.concat " " (l :: ls)) = true.
Proof.
  induction ls as [|l2 ls IH]; intros l Hl H.
  - now apply plain_ends_clean.
  - inversion H as [|? ? [Hl2 Hne] Hls]; subst.
    change (String.concat " " (l :: l2 :: ls))
      with (l ++ String " " (String.concat " " (l2 :: ls)))%string.
    apply ends_clean_app; [discriminate|].
    pose proof (concat_levels_not_empty " " l2 ls Hne) as Hc.
    pose proof (IH l2 Hl2 Hls) as He.
    destruct (String.concat " " (l2 :: ls)); [congruence|exact He].
Qed.

(** The line made of a path: the first character, then the levels. *)
Lemma cd_line_levels c l ls :
  level l -> Forall level ls ->
  cd_line (String c (String.concat "/" (l :: ls)))
  = Ok (String c (String.concat " " (l :: ls))).
Proof.
  intros Hl H. unfold cd_line.
  rewrite (replace_between_levels ls l (proj1 Hl) H).
  now rewrite strip_clean
    by (first [ now apply levels_start_clean
              | apply levels_end_clean; [exact (proj1 Hl)|exact H] ]).
Qed.

(** A [/] right after the first character leaves no blank behind. *)
Lemma cd_line_second_slash c l ls :
  level l -> Forall level ls ->
  cd_line (String c (String "/" (String.concat "/" (l :: ls))))
  = Ok (String c (String.concat " " (l :: ls))).
Proof.
  intros Hl H. unfold cd_line. cbn [replace_char].
  rewrite Ascii.eqb_refl, (replace_between_levels ls l (proj1 Hl) H).
  unfold strip. cbn [lstrip].
  replace (isspace " ") with true by reflexivity.
  fold (strip (String.concat " " (l :: ls))).
  now rewrite strip_clean
    by (first [ now apply levels_start_clean
              | apply levels_end_clean; [exact (proj1 Hl)|exact H] ]).
Qed.

Section ChangeNamespaceFacts.
Context {ext : Collaborators}.
Variable process : string -> Context -> result output * Context.

Lemma cd_runs_line context opargs path line :
  cd_line path = Ok line ->
  ChangeNamespaceCommand_run process context [VStr path] [] opargs
  = process line context.
Proof.
  intros H. unfold ChangeNamespaceCommand_run.
  cbn [length Nat.ltb Nat.leb Nat.eqb nth cd_path]. now rewrite H.
Qed.

(** X14. [cd] with a path of levels joined by [/], each level ASCII text
    that is not empty and holds neither a blank nor a [/], hands the main
    loop the same levels joined by single blanks, when the first level
    has two characters or more; for an absolute path, the leading [/] and
    then the levels joined by blanks. After a first level of one character
    the separator is lost: that character and the second level arrive as
    one word. *)
Theorem cd_separates_levels_by_blanks :
  forall (context : Context) (opargs : list oparg) (first : string)
         (levels : list string),
    level first -> Forall level levels ->
    (2 <= String.length first ->
     ChangeNamespaceCommand_run
       process context [VStr (String.concat "/" (first :: levels))] [] opargs
     = process (String.concat " " (first :: levels)) context)
    /\ ChangeNamespaceCommand_run
         process context
         [VStr (String "/" (String.concat "/" (first :: levels)))] [] opargs
       = process (String "/" (String.concat " " (first :: levels))) context
    /\ (forall c : ascii,
           ChangeNamespaceCommand_run
             process context
             [VStr (String.concat "/" (String c "" :: first :: levels))] []
             opargs
           = process (String c (String.concat " " (first :: levels)))
                     context).
Proof.
  intros context opargs first levels [Hplain Hne] Hlevels. repeat split.
  - intros Hlen. destruct first as [|c [|d f]]; simpl in Hlen; try lia.
    rewrite !concat_String with (c := c). apply cd_runs_line.
    simpl in Hplain. apply andb_true_iff in Hplain.
    apply cd_line_levels; [split; [tauto|discriminate]|exact Hlevels].
  - apply cd_runs_line. now apply cd_line_levels.
  - intros c. apply cd_runs_line.
    change (String.concat "/" (String c "" :: first :: levels))
      with (String c (String "/" (String.concat "/" (first :: levels)))).
    now apply cd_line_second_slash.
Qed.

End ChangeNamespaceFacts.

Lemma endswith_snoc s c : endswith (s ++ String c EmptyString) c = true.
Proof.
  induction s as [|a s IH]; simpl; [apply Ascii.eqb_refl|].
  destruct (s ++ String c EmptyString)%string eqn:E; [|exact IH].
  now destruct s.
Qed.

Lemma mod_namespaces_loop (f : Namespace -> Namespace) l :
  forall acc : list Namespace,
  fold_left (fun modded_ns i => modded_ns ++ [f i]) l acc = acc ++ map f l.
Proof.
  induction l as [|i l IH]; intros acc; simpl.
  - now rewrite app_nil_r.
  - now rewrite IH, <- app_assoc.
Qed.

(** X15. [mod_namespaces] gives back as many namespaces as it was given, in the
    same order and each under a name that ends in [/]; a prefix that does
    not end in [/] is used as if it did. *)
Theorem mod_namespaces_names :
  forall (nslist : list Namespace) (prepend : string),
    length (mod_namespaces nslist prepend) = length nslist
    /\ Forall (fun i => endswith (ns_name i) "/" = true)
              (mod_namespaces nslist prepend)
    /\ (prepend <> "" -> endswith prepend "/" = false ->
        mod_namespaces nslist (prepend ++ "/") = mod_namespaces nslist prepend).
Proof.
  intros nslist prepend. unfold mod_namespaces.
  rewrite !mod_namespaces_loop. cbn [app]. repeat split.
  - apply length_map.
  - apply Forall_forall. intros i Hi. apply in_map_iff in Hi.
    destruct Hi as (j & <- & _). cbn [ns_name with_name].
    rewrite <- append_assoc. apply endswith_snoc.
  - intros Hne Hend. rewrite endswith_snoc, Hend.
    assert (E : String.eqb (prepend ++ "/") "" = false)
      by (destruct prepend; [congruence|reflexivity]).
    rewrite E. cbn [negb andb].
    destruct (String.eqb prepend "") eqn:E0;
      [apply String.eqb_eq in E0; congruence|].
    reflexivity.
Qed.

(** ** Share targets *)

Lemma dict_item_set (d : dict pyval) k v k' :
  dict_item (dict_set d k v) k'
  = if String.eqb k k' then Ok v else dict_item d k'.
Proof.
  unfold dict_item. rewrite dict_get_set. now destruct (String.eqb k k').
Qed.

Section ShareFacts.
Context {ext : Collaborators}.
Variable str_list : list pyval -> string.

Local Abbreviation get_share_target := (get_share_target str_list).
Local Abbreviation py_str := (py_str str_list).

(** X17. What [get_share_target] shows after a setter is the value set,
    followed by the kind of target the setter stands for: a directory or a
    dataset, and for iSCSI a file or a volume. *)
Theorem share_target_after_set :
  forall (iscsi : bool) (obj : dict pyval) (value : pyval),
    get_share_target (set_share_path iscsi obj value)
    = Ok (py_str value ++ (if iscsi then " (file)" else " (directory)"))%string
    /\ get_share_target (set_share_dataset iscsi obj value)
       = Ok (py_str value ++ (if iscsi then " (zvol)" else " (dataset)"))%string.
Proof.
  intros iscsi obj value.
  unfold get_share_target, set_share_path, set_share_dataset.
  rewrite !dict_item_set. cbn [String.eqb Ascii.eqb Bool.eqb bind].
  rewrite ?String.eqb_refl. cbn [bind].
  now destruct iscsi.
Qed.

Lemma target_keys_overwrite (obj : dict pyval) a x b y :
  dict_set (dict_set (dict_set (dict_set obj "target_path" a)
                               "target_type" x)
                     "target_path" b)
           "target_type" y
  = dict_set (dict_set obj "target_path" b) "target_type" y.
Proof.
  rewrite (dict_set_comm (dict_set obj "target_path" a)
                         "target_type" x "target_path" b)
    by (try discriminate; apply dict_set_has_key).
  now rewrite dict_set_same, dict_set_same.
Qed.

(** X18. The setters of a share's target overwrite one another, so the last
    one called decides; none of them changes another field of the
    share. *)
Theorem share_setters_last_wins :
  forall (iscsi : bool) (obj : dict pyval) (a b : pyval),
    set_share_dataset iscsi (set_share_path iscsi obj a) b
    = set_share_dataset iscsi obj b
    /\ set_share_path iscsi (set_share_dataset iscsi obj a) b
       = set_share_path iscsi obj b
    /\ forall k,
        k <> "target_path" -> k <> "target_type" ->
        dict_get (set_share_path iscsi obj a) k = dict_get obj k
        /\ dict_get (set_share_dataset iscsi obj a) k = dict_get obj k.
Proof.
  intros iscsi obj a b. unfold set_share_dataset, set_share_path.
  split; [apply target_keys_overwrite|].
  split; [apply target_keys_overwrite|].
  intros k Hp Ht. rewrite !dict_get_set.
  apply String.eqb_neq in Hp, Ht.
  rewrite (String.eqb_sym "target_path" k), (String.eqb_sym "target_type" k).
  now rewrite Hp, Ht.
Qed.

(** X19. [set_share_parent] either sets the dataset made of the parent and the
    share's name, both of which have to be strings, or raises and leaves
    the share as it is. *)
Theorem set_share_parent_is_set_dataset :
  forall (iscsi : bool) (obj : dict pyval) (value : pyval),
    match set_share_parent iscsi obj value with
    | (Ok _, obj') =>
        exists parent name,
          value = VStr parent
          /\ dict_get obj "name" = Some (VStr name)
          /\ obj' = set_share_dataset iscsi obj (VStr (path_join parent name))
    | (Raise _, obj') => obj' = obj
    end.
Proof.
  intros iscsi obj value. unfold set_share_parent, dict_item.
  destruct (dict_get obj "name") as [n|]; cbn [bind]; [|reflexivity].
  destruct value; cbn [fspath bind]; try reflexivity.
  destruct n; cbn [fspath bind]; try reflexivity.
  eauto.
Qed.

End ShareFacts.

(** ** iSCSI portals *)

Lemma split_zero c s : split c 0 s = [s].
Proof. now destruct s. Qed.

Lemma split_no_sep c s : forall n,
  contains s c = false -> split c n s = [s].
Proof.
  induction s as [|a s IH]; intros n H; simpl; [reflexivity|].
  simpl in H. apply orb_false_iff in H. destruct H as [Ha Hs].
  destruct n; [reflexivity|]. now rewrite Ha, IH.
Qed.

Lemma split_at_sep c a rest n :
  contains a c = false ->
  split c (S n) (a ++ String c rest) = a :: split c n rest.
Proof.
  induction a as [|x a IH]; simpl; intros H.
  - now rewrite Ascii.eqb_refl.
  - apply orb_false_iff in H. destruct H as [Hx Ha].
    now rewrite Hx, (IH Ha).
Qed.

Lemma split_head_no_sep c s : forall n,
  contains (nth 0 (split c (S n) s) EmptyString) c = false.
Proof.
  induction s as [|a s IH]; intros n; simpl; [reflexivity|].
  destruct (Ascii.eqb a c) eqn:E; [reflexivity|].
  specialize (IH n). destruct (split c (S n) s) as [|h t]; simpl in *.
  - now rewrite E.
  - now rewrite E, IH.
Qed.

Lemma digit_char_spec a d :
  DecimalString.uint_of_char a (Some d) <> None <-> isdigit_char a = true.
Proof.
  destruct a as [[] [] [] [] [] [] [] []]; vm_compute;
    split; intros H; solve [reflexivity | discriminate | congruence].
Qed.

Lemma all_digits_parse s :
  all_digits s = true <-> exists d, DecimalString.NilEmpty.uint_of_string s = Some d.
Proof.
  induction s as [|a s IH]; simpl.
  - split; eauto.
  - rewrite andb_true_iff, IH. split.
    + intros (Ha & d & Hd). rewrite Hd.
      apply (digit_char_spec a d) in Ha.
      destruct (DecimalString.uint_of_char a (Some d)) as [d'|];
        [eauto|congruence].
    + intros (d' & Hd').
      destruct (DecimalString.NilEmpty.uint_of_string s) as [d|];
        [|discriminate].
      split; [|eauto]. apply (digit_char_spec a d). congruence.
Qed.

Lemma isdigit_parse s :
  isdigit s = true <-> exists d, DecimalString.NilZero.uint_of_string s = Some d.
Proof.
  destruct s as [|a s]; [split; [discriminate|intros (d & H); discriminate]|].
  apply all_digits_parse.
Qed.

Lemma all_digits_no_colon s : all_digits s = true -> contains s ":" = false.
Proof.
  induction s as [|a s IH]; simpl; [reflexivity|].
  intros H. apply andb_true_iff in H. destruct H as [Ha Hs].
  rewrite (IH Hs), orb_false_r.
  destruct (Ascii.eqb_spec a ":"); [subst a; discriminate|reflexivity].
Qed.

Lemma isdigit_all_digits s : isdigit s = true -> all_digits s = true.
Proof. now destruct s. Qed.

(** The text of a number that is not negative reads back as the number. *)
Lemma str_of_Z_reads_back z :
  (0 <= z)%Z ->
  isdigit (str_of_Z z) = true /\ int_of_digits (str_of_Z z) = Ok z.
Proof.
  intros Hz.
  assert (E : str_of_Z z
              = DecimalString.NilZero.string_of_uint (N.to_uint (Z.to_N z))).
  { destruct z; try reflexivity. lia. }
  assert (Hd : N.to_uint (Z.to_N z) <> Decimal.Nil).
  { destruct (Z.to_N z); [discriminate|].
    apply DecimalPos.Unsigned.to_uint_nonnil. }
  pose proof (DecimalString.NilZero.usu _ Hd) as Hparse.
  rewrite E. split.
  - apply isdigit_parse. eauto.
  - unfold int_of_digits. rewrite Hparse.
    rewrite DecimalN.Unsigned.of_to. f_equal. lia.
Qed.

Section PortalFacts.
Context {ext : Collaborators}.
Variable str_format : string -> string -> string.

Local Abbreviation pack := (pack str_format).
Local Abbreviation map_pack := (map_pack str_format).
Local Abbreviation set_portals := (set_portals str_format).

Definition well_formed (i : portal) : Prop :=
  contains (address i) ":" = false /\ (0 <= port i)%Z.

Lemma pack_address_port a p :
  contains a ":" = false -> (0 <= p)%Z ->
  pack (VStr (a ++ ":" ++ str_of_Z p)) = Ok (mkPortal a p).
Proof.
  intros Ha Hp. destruct (str_of_Z_reads_back p Hp) as [Hd Hi].
  unfold pack.
  change (a ++ ":" ++ str_of_Z p)%string
    with (a ++ String ":" (str_of_Z p))%string.
  rewrite (split_at_sep ":" a (str_of_Z p) 1 Ha).
  rewrite split_no_sep
    by (apply all_digits_no_colon, isdigit_all_digits, Hd).
  cbn [length nth Nat.ltb Nat.leb Nat.eqb andb]. rewrite Hd. cbn [negb].
  now rewrite Hi.
Qed.

Lemma pack_well_formed item i : pack item = Ok i -> well_formed i.
Proof.
  unfold pack, well_formed.
  destruct item as [| s | | |]; try discriminate.
  pose proof (split_head_no_sep ":" s 1) as Hhead.
  destruct (Nat.ltb 1 (length (split ":" 2 s))
            && negb (isdigit (nth 1 (split ":" 2 s) ""))); [discriminate|].
  destruct (Nat.eqb (length (split ":" 2 s)) 2).
  - unfold int_of_digits.
    destruct (DecimalString.NilZero.uint_of_string _); [|discriminate].
    cbn [bind]. intros H. injection H as <-. cbn [address port].
    split; [exact Hhead|lia].
  - intros H. injection H as <-. cbn [address port].
    split; [exact Hhead|lia].
Qed.

Lemma map_pack_well_formed value : forall l,
  map_pack value = Ok l -> Forall well_formed l.
Proof.
  induction value as [|item value IH]; intros l; simpl.
  - intros H. injection H as <-. constructor.
  - destruct (pack item) as [i|] eqn:E; [|discriminate]. cbn [bind].
    destruct (map_pack value) as [l'|]; [|discriminate]. cbn [bind].
    intros H. injection H as <-. constructor; [|now apply IH].
    eapply pack_well_formed; eassumption.
Qed.

Lemma map_pack_get_portals listen :
  Forall well_formed listen ->
  map_pack (map VStr (get_portals listen)) = Ok listen.
Proof.
  induction 1 as [|i listen [Ha Hp] _ IH]; [reflexivity|].
  cbn [get_portals map map_pack].
  rewrite (pack_address_port _ _ Ha Hp). cbn [bind].
  unfold get_portals in IH. rewrite IH. cbn [bind]. now destruct i.
Qed.

(** X20. Setting the portals to what [get_portals] shows stores the portals
    that were shown, when no address holds a colon and no port is
    negative. *)
Theorem set_portals_after_get_portals :
  forall (old listen : list portal),
    Forall well_formed listen ->
    set_portals old (map VStr (get_portals listen)) = (Ok tt, listen).
Proof.
  intros old listen H. unfold set_portals.
  now rewrite (map_pack_get_portals listen H).
Qed.

(** X21. What [set_portals] stores can always be shown and set again without
    change: every stored address is free of colons and every stored port
    is a number that is not negative. *)
Theorem set_portals_stores_readable_portals :
  forall (old old' : list portal) (value : list pyval),
    fst (set_portals old value) = Ok tt ->
    let stored := snd (set_portals old value) in
    Forall well_formed stored
    /\ set_portals old' (map VStr (get_portals stored)) = (Ok tt, stored).
Proof.
  intros old old' value. unfold set_portals.
  destruct (map_pack value) as [l|e] eqn:E; [|discriminate].
  intros _. cbn [snd].
  pose proof (map_pack_well_formed value l E) as H.
  split; [exact H|]. now rewrite (map_pack_get_portals l H).
Qed.

(** X22. [pack] reads [host] as port 3260 and [host:port] as the port given;
    after a second colon the port given is checked to be a number and
    then dropped for 3260. *)
Theorem pack_ports :
  forall (host digits rest : string),
    contains host ":" = false ->
    isdigit digits = true ->
    pack (VStr host) = Ok (mkPortal host 3260)
    /\ (exists p,
           int_of_digits digits = Ok p
           /\ pack (VStr (host ++ ":" ++ digits)) = Ok (mkPortal host p))
    /\ pack (VStr (host ++ ":" ++ digits ++ ":" ++ rest))
       = Ok (mkPortal host 3260).
Proof.
  intros host digits rest Hh Hd.
  pose proof (all_digits_no_colon _ (isdigit_all_digits _ Hd)) as Hc.
  repeat split.
  - unfold pack. now rewrite (split_no_sep ":" host 2 Hh).
  - destruct (proj1 (isdigit_parse digits) Hd) as (d & Hparse).
    exists (Z.of_N (N.of_uint d)). unfold int_of_digits. rewrite Hparse.
    split; [reflexivity|]. unfold pack.
    change (host ++ ":" ++ digits)%string
      with (host ++ String ":" digits)%string.
    rewrite (split_at_sep ":" host digits 1 Hh), (split_no_sep ":" digits 1 Hc).
    cbn [length nth Nat.ltb Nat.leb Nat.eqb andb]. rewrite Hd. cbn [negb].
    unfold int_of_digits. now rewrite Hparse.
  - unfold pack.
    change (host ++ ":" ++ digits ++ ":" ++ rest)%string
      with (host ++ String ":" (digits ++ String ":" rest))%string.
    rewrite (split_at_sep ":" host _ 1 Hh), (split_at_sep ":" digits rest 0 Hc).
    rewrite split_zero.
    cbn [length nth Nat.ltb Nat.leb Nat.eqb andb]. now rewrite Hd.
Qed.

End PortalFacts.

(** ** Deleting from a parent's list *)

Section DeleteFacts.
Context {ext : Collaborators}.
Variable parent_save : list row -> result output.

Local Abbreviation delete_from := (delete_from parent_save).

(** The rows [without] keeps are those whose key differs from [this]'s. *)
Lemma without_kept key this l : forall l',
  without key this l = Ok l' ->
  Forall (fun a =>
            exists x y,
              dict_get a key = Some x /\ dict_get this key = Some y
              /\ py_eq x y = false) l'
  /\ without key this l' = Ok l'.
Proof.
  induction l as [|a l IH]; intros l'; simpl.
  - intros H. injection H as <-. split; [constructor|reflexivity].
  - unfold dict_item at 1 2.
    destruct (dict_get a key) as [x|] eqn:Ex; [|discriminate]. cbn [bind].
    destruct (dict_get this key) as [y|] eqn:Ey; [|discriminate]. cbn [bind].
    destruct (without key this l) as [r|]; [|discriminate]. cbn [bind].
    destruct (IH r eq_refl) as [Hall Hagain].
    destruct (py_eq x y) eqn:E; cbn [negb]; intros H; injection H as <-.
    + now split.
    + split; [constructor; eauto|].
      simpl. unfold dict_item. rewrite Ex, Ey. cbn [bind].
      rewrite Hagain. cbn [bind]. now rewrite E.
Qed.

Lemma without_incl key this l : forall l' a,
  without key this l = Ok l' -> In a l' -> In a l.
Proof.
  induction l as [|b l IH]; intros l' a H Ha; simpl in H.
  - injection H as <-. contradiction.
  - destruct (dict_item b key) as [x|]; [|discriminate]. cbn [bind] in H.
    destruct (dict_item this key) as [y|]; [|discriminate]. cbn [bind] in H.
    destruct (without key this l) as [r|]; [|discriminate].
    cbn [bind] in H. injection H as <-.
    destruct (negb (py_eq x y)).
    + destruct Ha as [->|Ha]; [now left|right; now apply (IH r)].
    + right. now apply (IH r).
Qed.

(** Whether the entity [a] has a value under [key] that differs from
    [this]'s. *)
Definition differs (key : string) (this a : row) : bool :=
  match dict_get a key, dict_get this key with
  | Some x, Some y => negb (py_eq x y)
  | _, _ => false
  end.

(** What [without] returns is the list it was given, less the entries with
    [this]'s key: nothing else goes and the order stays. *)
Lemma without_is_filter key this l : forall l',
  without key this l = Ok l' -> l' = filter (differs key this) l.
Proof.
  induction l as [|a l IH]; intros l' H; simpl in H.
  - now injection H as <-.
  - cbn [filter]. unfold differs at 1. unfold dict_item in H at 1 2.
    destruct (dict_get a key) as [x|]; [|discriminate]. cbn [bind] in H.
    destruct (dict_get this key) as [y|]; [|discriminate]. cbn [bind] in H.
    destruct (without key this l) as [r|]; [|discriminate].
    cbn [bind] in H. injection H as <-.
    rewrite (IH r eq_refl). now destruct (negb (py_eq x y)).
Qed.

(** X23. Deleting an iSCSI user removes every user of that name from the
    parent's list and saves the parent; doing it again removes nothing
    more and saves the same list. What is left, and what [query] then
    returns, is the list as it was less the users of that name: every
    user under another name stays, in the order the list had. *)
Theorem iscsi_user_delete_removes_the_name :
  forall (users kept : list row) (this : row),
    without "name" this users = Ok kept ->
    ISCSIUsersNamespace_delete parent_save (Some users) this
    = (parent_save kept, Some kept)
    /\ ISCSIUsersNamespace_delete parent_save (Some kept) this
       = (parent_save kept, Some kept)
    /\ ISCSIUsersNamespace_query (Some kept) = kept
    /\ Forall (fun a =>
                 In a users
                 /\ exists x y,
                     dict_get a "name" = Some x
                     /\ dict_get this "name" = Some y
                     /\ py_eq x y = false) kept
    /\ kept = filter (differs "name" this) users
    /\ (forall a,
           In a users -> differs "name" this a = true -> In a kept).
Proof.
  intros users kept this H.
  destruct (without_kept "name" this users kept H) as [Hall Hagain].
  pose proof (without_is_filter "name" this users kept H) as Hfilter.
  unfold ISCSIUsersNamespace_delete, delete_from. rewrite H, Hagain.
  split; [reflexivity|]. split; [reflexivity|]. split; [reflexivity|].
  split; [|split; [exact Hfilter|]].
  - apply Forall_forall. intros a Ha. split.
    + eapply without_incl; eassumption.
    + now apply (proj1 (Forall_forall _ _) Hall).
  - intros a Ha Hd. rewrite Hfilter. apply filter_In. now split.
Qed.

End DeleteFacts.

(** ** [history] *)

Section HistoryFacts.
Context {ext : Collaborators}.
Variable int_of_str : string -> option Z.

Lemma history_items (history : list string) : forall k,
  k <= length history ->
  map (fun i => [("cmd", get_history_item history i)]) (seq 1 k)
  = map (fun line => [("cmd", VStr line)]) (firstn k history).
Proof.
  intros k. rewrite <- seq_shift, map_map. revert k.
  induction history as [|line history IH]; intros k Hk; simpl in Hk.
  - now replace k with 0 by lia.
  - destruct k as [|k]; [reflexivity|].
    cbn [seq firstn map]. rewrite <- seq_shift, map_map.
    cbn [get_history_item nth_error]. f_equal.
    apply IH. lia.
Qed.

(** X16. [history n], for [n] not negative, lists the [n] oldest lines that
    [readline] holds, oldest first, and [history] alone lists them all;
    either way the newest line is left out. *)
Theorem history_lists_the_oldest_lines :
  forall (history : list string) (context : Context) (kwargs : kwargs_t)
         (opargs : list oparg) (n : Z),
    let table lines :=
      OTable (mkTable (map (fun line => [("cmd", VStr line)]) lines)
                      [mkColumn "Command History" "cmd" (Some STRING)]) in
    HistoryCommand_run int_of_str history context [] kwargs opargs
    = Ok (table (firstn (length history - 1) history))
    /\ ((0 <= n)%Z ->
        HistoryCommand_run int_of_str history context [VInt n] kwargs opargs
        = Ok (table (firstn (Nat.min (Z.to_nat n) (length history - 1))
                            history))).
Proof.
  intros history context kwargs opargs n table. unfold HistoryCommand_run.
  split.
  - cbn [bind]. unfold range_from_1. rewrite history_items by lia.
    unfold table. repeat f_equal. lia.
  - intros Hn. cbn [length Nat.eqb negb nth py_int bind try_except].
    unfold range_from_1, table.
    destruct (Z.ltb_spec n (Z.of_nat (length history))) as [Hlt|Hge].
    + rewrite history_items by lia. repeat f_equal. lia.
    + rewrite history_items by lia. repeat f_equal. lia.
Qed.

End HistoryFacts.

(** * The model at work on the sample namespace *)

Module Runs.
Import Sample.
#[local] Existing Instance collaborators.

Example search_by_name :
  SearchPipeCommand_serialize_filter context [] [] by_name
  = Ok (mkQuery [Triple "name" "==" (VStr "root")]).
Proof. reflexivity. Qed.

Example exclude_by_name :
  ExcludePipeCommand_serialize_filter context [] [] by_name
  = Ok (mkQuery [Logic "nor" [Triple "name" "==" (VStr "root")]]).
Proof. reflexivity. Qed.

Example search_selects_root :
  apply_query op_holds other_logic
              (mkQuery [Triple "name" "==" (VStr "root")]) (data user_table)
  = [root_row].
Proof. reflexivity. Qed.

Example exclude_selects_the_rest :
  apply_query op_holds other_logic
              (mkQuery [Logic "nor" [Triple "name" "==" (VStr "root")]])
              (data user_table)
  = [alice_row].
Proof. reflexivity. Qed.

(** A value that cannot be read stops [map_opargs] before it reaches a
    later key, known or not. *)
Example unreadable_value_comes_first :
  SearchPipeCommand_serialize_filter
    context [] [] [("builtin", "==", VStr "maybe"); ("shell", "==", VNone)]
  = Raise (PyError "ValueError" "Invalid value").
Proof. reflexivity. Qed.

Example find_on_users :
  FindPipeCommand_run context [] [] by_name (OTable user_table)
  = Ok (OValue (VStr "root")).
Proof. reflexivity. Qed.

(** A first row without the primary key: the [KeyError] is caught. *)
Example find_without_key :
  FindPipeCommand_run context [] [] by_name
                      (OTable (mkTable [[("uid", VInt 0)]] []))
  = Ok ONone.
Proof. reflexivity. Qed.

Example select_uid :
  SelectPipeCommand_run context [VStr "uid"] [] [] (OTable user_table)
  = Ok (OTable (mkTable [[("result", VInt 0)]; [("result", VInt 1000)]]
                        [mkColumn "Result" "result" None])).
Proof. reflexivity. Qed.

Example alias_keeps_order :
  aliases (ml (snd (AliasCommand_run
                      context [] [("ls", VStr "show"); ("us", VStr "user show")]
                      [])))
  = [("us", VStr "user show"); ("ls", VStr "show")].
Proof. reflexivity. Qed.

Example source_all_run :
  source ["a.cli"; "b.cli"] start
  = (Ok tt, mkState nat 2 [Opened "a.cli"; Evaluated "a.cli";
                           Opened "b.cli"; Evaluated "b.cli"]).
Proof. reflexivity. Qed.

Example source_missing_file :
  source ["a.cli"; "nowhere"; "b.cli"] start
  = (Raise (CommandException "File nowhere does not exist."),
     mkState nat 1 [Opened "a.cli"; Evaluated "a.cli"]).
Proof. reflexivity. Qed.

Example source_garbled_file :
  source ["blob"; "a.cli"] start
  = (Raise (CommandException
              "Incorrect filetype, cannot parse file: invalid start byte"),
     mkState nat 0 [Opened "blob"]).
Proof. reflexivity. Qed.

End Runs.

(** * The theorems at the sample namespace *)

Module Witness.
Import Sample.
#[local] Existing Instance collaborators.

Lemma exclude_wraps_each_triple_in_nor_witness :
  let opargs := [("name", "==", VStr "root"); ("builtin", "!=", VStr "no")] in
  let ts := [Triple "name" "==" (VStr "root");
             Triple "builtin" "!=" (VBool false)] in
  map_opargs opargs context = Ok ts
  /\ ExcludePipeCommand_serialize_filter context [] [] opargs
     = Ok (mkQuery [Logic "nor" [Triple "name" "==" (VStr "root")];
                    Logic "nor" [Triple "builtin" "!=" (VBool false)]]).
Proof.
  intros opargs ts. split; [reflexivity|].
  exact (proj1 (exclude_wraps_each_triple_in_nor context opargs ts eq_refl)).
Defined.


Lemma positional_and_keyword_arguments_rejected_witness :
  ([VStr "root"] <> [] \/ @nil (string * pyval) <> [])
  /\ exists e,
      SearchPipeCommand_serialize_filter context [VStr "root"] [] by_name
      = Raise e
      /\ ExcludePipeCommand_serialize_filter context [VStr "root"] [] by_name
         = Raise e
      /\ (is_ok (map_opargs by_name context) = true ->
          e = invalid_syntax "[...]").
Proof.
  assert (H : [VStr "root"] <> [] \/ @nil (string * pyval) <> [])
    by (left; discriminate).
  split; [exact H|].
  exact (positional_and_keyword_arguments_rejected
           context [VStr "root"] [] by_name H).
Defined.

Lemma find_returns_first_primary_key_witness :
  primary_key (pipe_cwd context) = Some name_mapping
  /\ do_get name_mapping root_row = Ok (VStr "root")
  /\ FindPipeCommand_run context [] [] by_name (OTable user_table)
     = Ok (OValue (VStr "root")).
Proof.
  split; [reflexivity|]. split; [reflexivity|].
  exact (proj2 (proj2 (find_returns_first_primary_key context [] [] by_name))
               root_row [alice_row] (columns user_table) name_mapping
               (VStr "root") eq_refl eq_refl).
Defined.

Lemma select_arity_and_projection_witness :
  length [VStr "name"; VStr "uid"] <> 1
  /\ SelectPipeCommand_run context [VStr "name"; VStr "uid"] [] []
                           (OTable user_table)
     = Raise ArityError.
Proof.
  assert (H : length [VStr "name"; VStr "uid"] <> 1) by discriminate.
  split; [exact H|].
  exact (proj1 (select_arity_and_projection context [] [])
               [VStr "name"; VStr "uid"] (OTable user_table) H).
Defined.

Lemma select_non_table_returns_none_witness :
  length [VStr "name"] = 1
  /\ SelectPipeCommand_run context [VStr "name"] [] [] (OValue (VInt 5))
     = Ok ONone.
Proof.
  split; [reflexivity|].
  exact (select_non_table_returns_none
           context [VStr "name"] [] [] (VInt 5) eq_refl).
Defined.

Lemma source_aborts_at_first_failure_witness :
  let s1 := mkState nat 1 [Opened "a.cli"; Evaluated "a.cli"] in
  let s2 := mkState nat 2 [Opened "a.cli"; Evaluated "a.cli";
                           Opened "bad.cli"; Evaluated "bad.cli"] in
  let e := CommandException "command failed" in
  source_files nat bool (fun f => f) isfile open_read decode_utf8 parse
               eval_block ["a.cli"] start = (Ok tt, s1)
  /\ source_file nat bool (fun f => f) isfile open_read decode_utf8 parse
                 eval_block "bad.cli" s1 = (Raise e, s2)
  /\ source ["a.cli"; "bad.cli"; "b.cli"] start = (Raise e, s2).
Proof.
  intros s1 s2 e. split; [reflexivity|]. split; [reflexivity|].
  exact (proj1 (source_aborts_at_first_failure
                  nat bool (fun f => f) isfile open_read decode_utf8 parse
                  eval_block ["a.cli"] ["b.cli"] "bad.cli" start s1 s2 e
                  eq_refl eq_refl)).
Defined.

Lemma search_and_exclude_partition_witness :
  map_opargs by_name context = Ok [Triple "name" "==" (VStr "root")]
  /\ exists qs qe,
      SearchPipeCommand_serialize_filter context [] [] by_name = Ok qs
      /\ ExcludePipeCommand_serialize_filter context [] [] by_name = Ok qe
      /\ (forall r, xorb (matches op_holds other_logic qs r)
                         (matches op_holds other_logic qe r) = true)
      /\ Permutation (apply_query op_holds other_logic qs (data user_table)
                      ++ apply_query op_holds other_logic qe (data user_table))
                     (data user_table)
      /\ (forall r,
             In r (apply_query op_holds other_logic qs (data user_table)) ->
             ~ In r (apply_query op_holds other_logic qe (data user_table))).
Proof.
  split; [reflexivity|].
  exact (search_and_exclude_partition
           op_holds other_logic context "name" (VStr "root")
           [Triple "name" "==" (VStr "root")] (data user_table) eq_refl).
Defined.

End Witness.

(** * The further theorems at the samples *)

Module Instances.
Import Sample SampleShares.
#[local] Existing Instance collaborators.

Lemma alias_binds_names_witness :
  [("ls", VStr "show")] <> @nil (string * pyval)
  /\ dict_get (aliases (ml (snd (AliasCommand_run
                                   context [] [("ls", VStr "show")] []))))
              "ls"
     = Some (VStr "show").
Proof.
  assert (H : [("ls", VStr "show")] <> @nil (string * pyval)) by discriminate.
  split; [exact H|].
  exact (alias_binds_names context [] [("ls", VStr "show")] [] "ls" H).
Defined.

Lemma alias_table_stays_a_dict_witness :
  NoDup (keys (aliases (ml context)))
  /\ NoDup (keys (aliases (ml (snd (AliasCommand_run
                                      context [] [("ls", VStr "show")] [])))))
  /\ NoDup (keys (aliases (ml (snd (UnaliasCommand_run
                                      context [] [("ls", VStr "show")] [])))))
  /\ path (ml (snd (AliasCommand_run context [] [("ls", VStr "show")] [])))
     = path (ml context)
  /\ path (ml (snd (UnaliasCommand_run context [] [("ls", VStr "show")] [])))
     = path (ml context).
Proof.
  assert (H : NoDup (keys (aliases (ml context)))).
  { repeat constructor. intros []. }
  split; [exact H|].
  exact (alias_table_stays_a_dict context [] [("ls", VStr "show")] [] H).
Defined.

Lemma unalias_removes_names_witness :
  Forall (fun v => isinstance_list v = false) [VStr "us"; VInt 3]
  /\ fst (UnaliasCommand_run context [VStr "us"; VInt 3] [] []) = Ok ONone
  /\ aliases (ml (snd (UnaliasCommand_run context [VStr "us"; VInt 3] [] [])))
     = [].
Proof.
  assert (H : Forall (fun v => isinstance_list v = false) [VStr "us"; VInt 3])
    by (repeat constructor).
  split; [exact H|]. split; [|reflexivity].
  exact (proj1 (unalias_removes_names context [VStr "us"; VInt 3] [] [] H)).
Defined.

Lemma unalias_undoes_alias_witness :
  ~ In "ls" (keys (aliases (ml context)))
  /\ aliases (ml (snd (UnaliasCommand_run
                         (snd (AliasCommand_run
                                 context [] [("ls", VStr "show")] []))
                         [VStr "ls"] [] [])))
     = aliases (ml context).
Proof.
  assert (H : ~ In "ls" (keys (aliases (ml context)))).
  { intros [H|[]]. discriminate H. }
  split; [exact H|].
  exact (unalias_undoes_alias context "ls" (VStr "show") H).
Defined.

Lemma map_opargs_keeps_operators_witness :
  let opargs := [("name", "~=", VStr "ro"); ("uid", ">", VInt 0)] in
  let ts := [Triple "name" "~=" (VStr "ro"); Triple "uid" ">" (VInt 0)] in
  map_opargs opargs context = Ok ts
  /\ length ts = length opargs.
Proof.
  intros opargs ts. split; [reflexivity|].
  exact (proj1 (map_opargs_keeps_operators context opargs ts eq_refl)).
Defined.

Lemma select_result_after_select_witness :
  let out := OTable (mkTable [[("result", VInt 0)]; [("result", VInt 1000)]]
                             [mkColumn "Result" "result" None]) in
  SelectPipeCommand_run context [VStr "uid"] [] [] (OTable user_table) = Ok out
  /\ SelectPipeCommand_run context [VStr "result"] [] [] out = Ok out.
Proof.
  intros out. split; [reflexivity|].
  exact (select_result_after_select context [] [] [] [] (VStr "uid")
                                    user_table out eq_refl).
Defined.

Lemma source_returns_after_all_files_witness :
  let s' := mkState nat 2 [Opened "a.cli"; Evaluated "a.cli";
                           Opened "b.cli"; Evaluated "b.cli"] in
  source ["a.cli"; "b.cli"] start = (Ok tt, s')
  /\ ["a.cli"; "b.cli"] <> []
  /\ trace nat s'
     = trace nat start
       ++ flat_map (sourced (fun f => f)) ["a.cli"; "b.cli"].
Proof.
  intros s'. split; [reflexivity|].
  exact (source_returns_after_all_files
           nat bool (fun f => f) isfile open_read decode_utf8 parse eval_block
           ["a.cli"; "b.cli"] start s' tt eq_refl).
Defined.

Lemma echo_joins_scalars_witness :
  Forall (fun v => isinstance_list v = false) [VStr "is"; VInt 10; VNone]
  /\ EchoCommand_run context [VStr "timeout"; VStr "is"; VInt 10; VNone] [] []
     = Ok (OValue (VStr "timeout is 10 None")).
Proof.
  assert (H : Forall (fun v => isinstance_list v = false)
                     [VStr "is"; VInt 10; VNone]) by (repeat constructor).
  split; [exact H|].
  exact (proj2 (echo_joins_scalars context [] []) "timeout"
               [VStr "is"; VInt 10; VNone] H).
Defined.

Lemma echo_needs_a_leading_string_witness :
  exists msg,
    EchoCommand_run context [VInt 10; VStr "seconds"] [] []
    = Raise (TypeError msg).
Proof.
  exact (echo_needs_a_leading_string context [] [] (VInt 10) [VStr "seconds"]
                                     I).
Defined.

Lemma cd_separates_levels_by_blanks_witness :
  level "system" /\ Forall level ["ui"; ".."]
  /\ 2 <= String.length "system"
  /\ ChangeNamespaceCommand_run process context [VStr "system/ui/.."] [] []
     = (Ok (OValue (VStr "system ui ..")), context)
  /\ ChangeNamespaceCommand_run process context [VStr "/system/ui/.."] [] []
     = (Ok (OValue (VStr "/system ui ..")), context)
  /\ ChangeNamespaceCommand_run process context [VStr "a/system/ui/.."] [] []
     = (Ok (OValue (VStr "asystem ui ..")), context).
Proof.
  assert (H1 : level "system") by (split; [reflexivity|discriminate]).
  assert (H2 : Forall level ["ui"; ".."])
    by (repeat constructor; discriminate).
  assert (H3 : 2 <= String.length "system") by (cbn; lia).
  pose proof (cd_separates_levels_by_blanks
                process context [] "system" ["ui"; ".."] H1 H2) as H.
  split; [exact H1|]. split; [exact H2|]. split; [exact H3|].
  split; [exact (proj1 H H3)|].
  split; [exact (proj1 (proj2 H))|].
  exact (proj2 (proj2 H) "a"%char).
Defined.

Lemma mod_namespaces_names_witness :
  "system" <> ""
  /\ endswith "system" "/" = false
  /\ mod_namespaces [users; root] "system/" = mod_namespaces [users; root] "system"
  /\ map ns_name (mod_namespaces [users; root] "system")
     = ["system/user/"; "system///"].
Proof.
  assert (H : "system" <> "") by discriminate.
  split; [exact H|]. split; [reflexivity|]. split; [|reflexivity].
  exact (proj2 (proj2 (mod_namespaces_names [users; root] "system"))
               H eq_refl).
Defined.

Lemma set_portals_after_get_portals_witness :
  Forall well_formed listen
  /\ get_portals listen = ["192.168.1.10:3260"; "127.0.0.1:8888"]
  /\ set_portals str_format [] (map VStr (get_portals listen))
     = (Ok tt, listen).
Proof.
  assert (H : Forall well_formed listen).
  { repeat constructor; discriminate. }
  split; [exact H|]. split; [reflexivity|].
  exact (set_portals_after_get_portals str_format [] listen H).
Defined.

Lemma set_portals_stores_readable_portals_witness :
  let value := [VStr "10.0.0.1"; VStr "10.0.0.2:0860"] in
  let stored := [mkPortal "10.0.0.1" 3260; mkPortal "10.0.0.2" 860] in
  fst (set_portals str_format listen value) = Ok tt
  /\ snd (set_portals str_format listen value) = stored
  /\ set_portals str_format [] (map VStr (get_portals stored))
     = (Ok tt, stored).
Proof.
  intros value stored. split; [reflexivity|]. split; [reflexivity|].
  exact (proj2 (set_portals_stores_readable_portals
                  str_format listen [] value eq_refl)).
Defined.

Lemma pack_ports_witness :
  contains "10.0.0.1" ":" = false
  /\ isdigit "80" = true
  /\ pack str_format (VStr "10.0.0.1") = Ok (mkPortal "10.0.0.1" 3260)
  /\ pack str_format (VStr "10.0.0.1:80:x") = Ok (mkPortal "10.0.0.1" 3260).
Proof.
  split; [reflexivity|]. split; [reflexivity|].
  pose proof (pack_ports str_format "10.0.0.1" "80" "x" eq_refl eq_refl) as H.
  exact (conj (proj1 H) (proj2 (proj2 H))).
Defined.

Lemma history_lists_the_oldest_lines_witness :
  (0 <= 2)%Z
  /\ HistoryCommand_run (fun _ => None) ["top"; "cd system"; "show"; "history 2"]
                        context [VInt 2] [] []
     = Ok (OTable (mkTable [[("cmd", VStr "top")]; [("cmd", VStr "cd system")]]
                           [mkColumn "Command History" "cmd" (Some STRING)])).
Proof.
  assert (H : (0 <= 2)%Z) by discriminate.
  split; [exact H|].
  exact (proj2 (history_lists_the_oldest_lines
                  (fun _ => None) ["top"; "cd system"; "show"; "history 2"]
                  context [] [] 2) H).
Defined.

Lemma iscsi_user_delete_removes_the_name_witness :
  let kept := [[("name", VStr "bob"); ("secret", VStr "mnopqrstuvwx")]] in
  without "name" alice iscsi_users = Ok kept
  /\ ISCSIUsersNamespace_delete parent_save (Some iscsi_users) alice
     = (Ok (OValue (VInt 1)), Some kept)
  /\ ISCSIUsersNamespace_delete parent_save (Some kept) alice
     = (Ok (OValue (VInt 1)), Some kept).
Proof.
  intros kept. split; [reflexivity|].
  pose proof (iscsi_user_delete_removes_the_name parent_save iscsi_users kept
                                                 alice eq_refl) as H.
  exact (conj (proj1 H) (proj1 (proj2 H))).
Defined.

End Instances.


(** * Where a statement of the design document fails *)

Module Counterexample.
Import Sample.
#[local] Existing Instance collaborators.


End Counterexample.
